(** * apiok: the interactive organisation engine of the front end

    A shallow embedding of the drag-and-drop logic ([utils/dragUtils.ts] and
    the drag handlers of [App.tsx]) and of the multi-tab editing session of
    [App.tsx], followed by the properties of the specification.

    Conventions.
    - Item ids are integers handed out by the persistence layer: [Z].
    - Pixel coordinates of the drag handlers are JavaScript numbers:
      binary64 floats ([PrimFloat.float]) with their rounding; [valueOf]
      reads the exact rational a finite float stands for.  The panel
      resizing of [handleMouseMove] is idealised over exact rationals ([Q]).
    - Tab ids are JavaScript strings: [string].
    - A handler that awaits a call of the REST client is modelled by the
      list of calls it issues, in order, and takes the [Answer] of the
      server as an argument: the promise resolves or rejects.
    - A handler reads the state through the closure of the render it was
      created in; where a continuation runs after an [await], the captured
      values are explicit arguments. *)

From Stdlib Require Import ZArith QArith Qpower List Bool String Ascii Lia Lqa Permutation.
From Stdlib Require Import DecimalString DecimalNat.
From Stdlib Require Import Floats.
Import ListNotations.

Local Open Scope Z_scope.

(** ** utils/dragUtils.ts *)

Module DragUtils.

(** [types.ts]: [DragItemType = 'request' | 'folder']. *)
Inductive DragItemType : Set := request | folder.

Inductive GapPosition : Set := before | after.

Inductive DropTargetType : Set := type_gap | type_folder.

Definition DragItemType_eqb (a b : DragItemType) : bool :=
  match a, b with
  | request, request | folder, folder => true
  | _, _ => false
  end.

Definition GapPosition_eqb (a b : GapPosition) : bool :=
  match a, b with
  | before, before | after, after => true
  | _, _ => false
  end.

(** [types.ts]: [interface DragData]. *)
Record DragData : Set := mkDragData {
  drag_type : DragItemType;
  drag_id : Z;
  drag_folderId : option Z
}.

(** [types.ts]: [interface DropTarget]; every field but [type] is optional. *)
Record DropTarget : Set := mkDropTarget {
  type : DropTargetType;
  position : option GapPosition;
  refId : option Z;
  refType : option DragItemType;
  targetFolderId : option Z
}.

(** The two object literals the drag-over handlers build. *)
Definition gapTarget (p : GapPosition) (r : Z) (k : DragItemType) : DropTarget :=
  mkDropTarget type_gap (Some p) (Some r) (Some k) None.

Definition folderTarget (f : Z) : DropTarget :=
  mkDropTarget type_folder None None None (Some f).





(** [{ top: number; height: number }] *)
Record Rect : Set := mkRect { top : float; height : float }.

(** [calcGapPosition(mouseY, elementRect)] *)
Definition calcGapPosition (mouseY : float) (elementRect : Rect) : GapPosition :=
  let midY := (top elementRect + height elementRect / 2)%float in
  if (mouseY <? midY)%float then before else after.

Section Reorder.

Variable T : Type.
Variable id : T -> Z.

(** [Array.prototype.findIndex]: the first index whose element satisfies
    the predicate, [-1] when there is none. *)
Fixpoint findIndex (p : T -> bool) (l : list T) : Z :=
  match l with
  | [] => -1
  | x :: l' =>
      if p x then 0
      else let r := findIndex p l' in if r =? -1 then -1 else r + 1
  end.

(** [arr.splice(start, 0, x)] on an array of length [len]: the start index
    is clamped into [0 .. len] (a negative one counts from the end). *)
Definition splice_insert (l : list T) (start : Z) (x : T) : list T :=
  let len := Z.of_nat (List.length l) in
  let k := if start <? 0 then Z.max (len + start) 0 else Z.min start len in
  firstn (Z.to_nat k) l ++ x :: skipn (Z.to_nat k) l.

(** [reorderList(items, dragId, refId, position)] *)
Definition reorderList (items : list T) (dragId refId : Z)
           (position : GapPosition) : list T :=
  match find (fun item => id item =? dragId) items with
  | None => items
  | Some dragItem =>
      let remaining := filter (fun item => negb (id item =? dragId)) items in
      let refIndex := findIndex (fun item => id item =? refId) remaining in
      if refIndex =? -1 then items
      else
        let insertIndex :=
          match position with before => refIndex | after => refIndex + 1 end in
        splice_insert remaining insertIndex dragItem
  end.

End Reorder.

Arguments findIndex {T} p l.
Arguments splice_insert {T} l start x.
Arguments reorderList {T} id items dragId refId position.

(** [isValidDrop(dragType, dropTarget)]; [refType === 'request'] is false
    for an absent [refType]. *)
Definition isValidDrop (dragType : DragItemType) (dropTarget : DropTarget) : bool :=
  match type dropTarget with
  | type_gap =>
      match dragType with
      | request =>
          match refType dropTarget with Some k => DragItemType_eqb k request | None => false end
      | folder =>
          match refType dropTarget with Some k => DragItemType_eqb k folder | None => false end
      end
  | type_folder =>
      match dragType with
      | request => true
      | folder => true
      end
  end.

End DragUtils.

Import DragUtils.


(** ** types.ts: the tree of folders and requests *)

Module Tree.

(** [interface Request] (the two time stamps are left out: nothing reads them). *)
Record Request : Set := mkRequest {
  r_id : Z;
  r_name : string;
  r_method : string;
  r_url : string;
  r_headers : list (string * string);
  r_query_params : list (string * string);
  r_body : option string;
  r_folder_id : option Z;
  r_sort_order : Z
}.

(** [interface Folder] (time stamps left out). *)
#[local] Unset Elimination Schemes.
Inductive Folder : Set :=
| mkFolder (f_id : Z) (f_name : string) (f_parent_folder_id : option Z)
           (f_sort_order : Z) (f_children : list Folder) (f_requests : list Request).

#[local] Set Elimination Schemes.

Definition f_id (f : Folder) : Z := match f with mkFolder i _ _ _ _ _ => i end.
Definition f_name (f : Folder) : string := match f with mkFolder _ n _ _ _ _ => n end.
Definition f_children (f : Folder) : list Folder :=
  match f with mkFolder _ _ _ _ c _ => c end.
Definition f_requests (f : Folder) : list Request :=
  match f with mkFolder _ _ _ _ _ r => r end.

(** Induction over a folder with the property available for its children. *)
Fixpoint Folder_ind' (P : Folder -> Prop)
         (step : forall i n p s children requests,
             Forall P children -> P (mkFolder i n p s children requests))
         (fld : Folder) {struct fld} : P fld :=
  match fld with
  | mkFolder i n p s children requests =>
      step i n p s children requests
           ((fix all (l : list Folder) : Forall P l :=
               match l with
               | [] => Forall_nil P
               | c :: rest => Forall_cons c (Folder_ind' P step c) (all rest)
               end) children)
  end.

(** The client's snapshot of the tree: [folders] and [standaloneRequests]. *)
Record Snapshot : Set := mkSnapshot {
  folders : list Folder;
  standaloneRequests : list Request
}.

(** One turn of the [for (const folder of flds)] loop of the [searchFolders]
    local to [getSiblingRequests]; [Some] is an early [return]. *)
Fixpoint searchFolderRequests (refId : Z) (fld : Folder) {struct fld}
  : option (list Request) :=
  match fld with
  | mkFolder _ _ _ _ children requests =>
      if existsb (fun r => r_id r =? refId) requests then Some requests
      else
        (fix loop (flds : list Folder) : option (list Request) :=
           match flds with
           | [] => None
           | c :: rest =>
               match searchFolderRequests refId c with
               | Some found => Some found
               | None => loop rest
               end
           end) children
  end.

Fixpoint searchFoldersRequests (refId : Z) (flds : list Folder)
  : option (list Request) :=
  match flds with
  | [] => None
  | c :: rest =>
      match searchFolderRequests refId c with
      | Some found => Some found
      | None => searchFoldersRequests refId rest
      end
  end.

(** [getSiblingRequests(refId)] *)
Definition getSiblingRequests (s : Snapshot) (refId : Z) : list Request :=
  if existsb (fun r => r_id r =? refId) (standaloneRequests s)
  then standaloneRequests s
  else match searchFoldersRequests refId (folders s) with
       | Some found => found
       | None => []
       end.

(** The same loop for the [searchFolders] local to [getSiblingFolders]. *)
Fixpoint searchFolderChildren (refId : Z) (fld : Folder) {struct fld}
  : option (list Folder) :=
  match fld with
  | mkFolder _ _ _ _ children _ =>
      if existsb (fun f => f_id f =? refId) children then Some children
      else
        (fix loop (flds : list Folder) : option (list Folder) :=
           match flds with
           | [] => None
           | c :: rest =>
               match searchFolderChildren refId c with
               | Some found => Some found
               | None => loop rest
               end
           end) children
  end.

Fixpoint searchFoldersChildren (refId : Z) (flds : list Folder)
  : option (list Folder) :=
  match flds with
  | [] => None
  | c :: rest =>
      match searchFolderChildren refId c with
      | Some found => Some found
      | None => searchFoldersChildren refId rest
      end
  end.

(** [getSiblingFolders(refId)] *)
Definition getSiblingFolders (s : Snapshot) (refId : Z) : list Folder :=
  if existsb (fun f => f_id f =? refId) (folders s)
  then folders s
  else match searchFoldersChildren refId (folders s) with
       | Some found => found
       | None => []
       end.

(** [findFolder] of the folder context menu: the first folder with the
    given id, depth first. *)
Fixpoint findFolderIn (targetId : Z) (fld : Folder) {struct fld} : option Folder :=
  if f_id fld =? targetId then Some fld
  else
    match fld with
    | mkFolder _ _ _ _ children _ =>
        (fix loop (flds : list Folder) : option Folder :=
           match flds with
           | [] => None
           | c :: rest =>
               match findFolderIn targetId c with
               | Some found => Some found
               | None => loop rest
               end
           end) children
    end.

Fixpoint findFolder (targetId : Z) (flds : list Folder) : option Folder :=
  match flds with
  | [] => None
  | c :: rest =>
      match findFolderIn targetId c with
      | Some found => Some found
      | None => findFolder targetId rest
      end
  end.

(** Ids occurring in the tree, for stating the properties. *)
Fixpoint folderIds (fld : Folder) : list Z :=
  match fld with
  | mkFolder i _ _ _ children _ =>
      i :: (fix loop (flds : list Folder) : list Z :=
              match flds with
              | [] => []
              | c :: rest => folderIds c ++ loop rest
              end) children
  end.

Fixpoint foldersIds (flds : list Folder) : list Z :=
  match flds with
  | [] => []
  | c :: rest => folderIds c ++ foldersIds rest
  end.

Fixpoint folderRequestIds (fld : Folder) : list Z :=
  match fld with
  | mkFolder _ _ _ _ children requests =>
      map r_id requests ++
      (fix loop (flds : list Folder) : list Z :=
         match flds with
         | [] => []
         | c :: rest => folderRequestIds c ++ loop rest
         end) children
  end.

Fixpoint foldersRequestIds (flds : list Folder) : list Z :=
  match flds with
  | [] => []
  | c :: rest => folderRequestIds c ++ foldersRequestIds rest
  end.

(** Every request id of the snapshot, standalone or nested. *)
Definition allRequestIds (s : Snapshot) : list Z :=
  map r_id (standaloneRequests s) ++ foldersRequestIds (folders s).

(** Every folder id of the snapshot, root or nested. *)
Definition allFolderIds (s : Snapshot) : list Z := foldersIds (folders s).

(** The destination [dest] is the folder [fid] itself or lies below it. *)
Definition isSelfOrDescendant (s : Snapshot) (fid dest : Z) : bool :=
  match findFolder fid (folders s) with
  | Some fld => existsb (Z.eqb dest) (folderIds fld)
  | None => false
  end.

(** [findReq] of the request context menu: the first request with the
    given id, depth first, a folder's own requests before its children. *)
Fixpoint findReqIn (targetId : Z) (fld : Folder) {struct fld} : option Request :=
  match fld with
  | mkFolder _ _ _ _ children requests =>
      match find (fun r => r_id r =? targetId) requests with
      | Some r => Some r
      | None =>
          (fix loop (flds : list Folder) : option Request :=
             match flds with
             | [] => None
             | c :: rest =>
                 match findReqIn targetId c with
                 | Some found => Some found
                 | None => loop rest
                 end
             end) children
      end
  end.

Fixpoint findReq (targetId : Z) (flds : list Folder) : option Request :=
  match flds with
  | [] => None
  | c :: rest =>
      match findReqIn targetId c with
      | Some found => Some found
      | None => findReq targetId rest
      end
  end.

(** [allReqs.find(r => r.id === targetId) || findReq(folders)] *)
Definition findRequest (s : Snapshot) (targetId : Z) : option Request :=
  match find (fun r => r_id r =? targetId) (standaloneRequests s) with
  | Some r => Some r
  | None => findReq targetId (folders s)
  end.

(** Every folder of a subtree, the root first, for stating the properties. *)
Fixpoint subfolders (fld : Folder) : list Folder :=
  fld :: match fld with
         | mkFolder _ _ _ _ children _ =>
             (fix loop (flds : list Folder) : list Folder :=
                match flds with
                | [] => []
                | c :: rest => subfolders c ++ loop rest
                end) children
         end.

Fixpoint allFolders (flds : list Folder) : list Folder :=
  match flds with
  | [] => []
  | c :: rest => subfolders c ++ allFolders rest
  end.

End Tree.

Import Tree.

(** ** api/client.ts: the calls a handler issues *)

Module Api.

(** Body of [api.requests.update] and [api.requests.create]
    ([Partial<RequestCreate>]); an absent key is [None].  [headers] and
    [query_params] hold the entries handed to [Object.fromEntries]. *)
Record RequestData : Set := mkRequestData {
  d_name : option string;
  d_method : option string;
  d_url : option string;
  d_headers : option (list (string * string));
  d_query_params : option (list (string * string));
  d_body : option string;
  d_folder_id : option Z
}.

Definition noRequestData : RequestData :=
  mkRequestData None None None None None None None.

(** Body of [api.folders.update]. *)
Record FolderData : Set := mkFolderData {
  d_folder_name : option string;
  d_parent_folder_id : option Z
}.

Inductive Call : Set :=
| requests_reorder (requestIds : list Z)
| folders_reorder (folderIds : list Z)
| requests_update (id : Z) (data : RequestData)
| requests_create (data : RequestData)
| requests_delete (id : Z)
| folders_update (folderId : Z) (data : FolderData)
| loadData.

(** How an awaited call settles: the promise resolves with the parsed
    body, or [request] throws [new Error(error.detail || ...)] on a non-2xx
    answer ([fetch] itself rejects when the server is out of reach). *)
Inductive Answer (A : Type) : Type :=
| resolved (result : A)
| rejected (message : string).

Arguments resolved {A} result.
Arguments rejected {A} message.

(** The calls that change what is persisted ([loadData] only reads). *)
Definition isMutation (c : Call) : bool :=
  match c with loadData => false | _ => true end.

End Api.

Import Api.

(** ** App.tsx: drag and drop *)

Module Drag.

(** The two slots [dragData] and [dropTarget] of the component state. *)
Record State : Set := mkState {
  dragData : option DragData;
  dropTarget : option DropTarget
}.

(** [handleDragStart(e, data)] *)
Definition handleDragStart (st : State) (data : DragData) : State :=
  mkState (Some data) (dropTarget st).

(** [handleDragOver(e, itemId, itemType)]; [clientY] and [rect] are
    [e.clientY] and the bounding rectangle of the hovered row. *)
Definition handleDragOver (st : State) (clientY : float) (rect : Rect)
           (itemId : Z) (itemType : DragItemType) : State :=
  match dragData st with
  | None => st
  | Some _ =>
      let position := calcGapPosition clientY rect in
      mkState (dragData st) (Some (gapTarget position itemId itemType))
  end.

(** [handleFolderDragOver(e, folderId)] *)
Definition handleFolderDragOver (st : State) (folderId : Z) : State :=
  match dragData st with
  | None => st
  | Some _ => mkState (dragData st) (Some (folderTarget folderId))
  end.

(** The [onDragOver] handler of a folder row in [renderFolderTree]. *)
Definition folderRowDragOver (st : State) (clientY : float) (rect : Rect)
           (folderId : Z) : State :=
  let relativeY := (clientY - top rect)%float in
  let threshold := (height rect * 0.25)%float in
  if (relativeY <? threshold)%float || (height rect - threshold <? relativeY)%float
  then handleDragOver st clientY rect folderId folder
  else handleFolderDragOver st folderId.

(** The [onDragOver] handler of a request row in [renderRequestItem]. *)
Definition requestRowDragOver (st : State) (clientY : float) (rect : Rect)
           (reqId : Z) : State :=
  handleDragOver st clientY rect reqId request.

(** [renderGapIndicator(position, itemId)]: [true] when the indicator
    element is rendered, [false] for [null]. *)
Definition renderGapIndicator (st : State) (pos : GapPosition) (itemId : Z) : bool :=
  match dropTarget st with
  | None => false
  | Some t =>
      match type t with
      | type_gap =>
          match refId t with Some r => r =? itemId | None => false end
          && match position t with Some p => GapPosition_eqb p pos | None => false end
      | type_folder => false
      end
  end.

(** [isFolderDropTarget] of [renderFolderTree]. *)
Definition isFolderDropTarget (st : State) (folderId : Z) : bool :=
  match dropTarget st with
  | None => false
  | Some t =>
      match type t with
      | type_folder =>
          match targetFolderId t with Some f => f =? folderId | None => false end
      | type_gap => false
      end
  end.

(** The arguments [target.refId!] and [target.position!] of [handleGapDrop]
    when the field is absent: [undefined] equals no id, and is not
    ['before']. *)
Definition siblingRequestsOf (s : Snapshot) (r : option Z) : list Request :=
  match r with Some refId => getSiblingRequests s refId | None => [] end.

Definition siblingFoldersOf (s : Snapshot) (r : option Z) : list Folder :=
  match r with Some refId => getSiblingFolders s refId | None => [] end.

Definition reorderListAt {T : Type} (id : T -> Z) (items : list T) (dragId : Z)
           (r : option Z) (p : option GapPosition) : list T :=
  match r with
  | Some refId =>
      reorderList id items dragId refId
                  match p with Some q => q | None => after end
  | None => items
  end.

(** [handleGapDrop(drag, target)] *)
Definition handleGapDrop (s : Snapshot) (drag : DragData) (target : DropTarget)
  : list Call :=
  match drag_type drag, refType target with
  | request, Some request =>
      let siblings := siblingRequestsOf s (refId target) in
      let newOrder :=
        reorderListAt r_id siblings (drag_id drag) (refId target) (position target) in
      [requests_reorder (map r_id newOrder)]
  | folder, Some folder =>
      let siblings := siblingFoldersOf s (refId target) in
      let newOrder :=
        reorderListAt f_id siblings (drag_id drag) (refId target) (position target) in
      [folders_reorder (map f_id newOrder)]
  | _, _ => []
  end.

(** [handleFolderDrop(drag, target)] *)
Definition handleFolderDrop (drag : DragData) (target : DropTarget) : list Call :=
  match drag_type drag with
  | request =>
      [requests_update (drag_id drag)
         (mkRequestData None None None None None None (targetFolderId target))]
  | folder =>
      [folders_update (drag_id drag) (mkFolderData None (targetFolderId target))]
  end.

(** What one run of [handleDrop] does: the calls it issues in order, the
    message it hands to [setError] (if any) and the drag state afterwards. *)
Record DropRun : Set := mkDropRun {
  run_calls : list Call;
  run_error : option string;
  run_state : State
}.

(** [handleDrop(e)].  [answer] is how the server settles the call awaited
    in [handleGapDrop] or [handleFolderDrop]; when that handler issues no
    call there is nothing to reject.  [await loadData()] never rejects
    ([loadData] catches its own failures).  The snapshot itself is only ever
    replaced by what [loadData] receives. *)
Definition handleDrop (s : Snapshot) (answer : Answer unit) (st : State) : DropRun :=
  match dragData st, dropTarget st with
  | Some drag, Some target =>
      let calls :=
        match type target with
        | type_gap => handleGapDrop s drag target
        | type_folder => handleFolderDrop drag target
        end in
      match calls, answer with
      | [], _ | _, resolved _ =>
          mkDropRun (calls ++ [loadData]) None (mkState None None)
      | _ :: _, rejected message =>
          mkDropRun calls (Some message) (mkState None None)
      end
  | _, _ => mkDropRun [] None st
  end.

(** A drop released on a folder row or a request row: the row binds
    [onDrop={handleDrop}] and so does the enclosing [tree-view], and the
    event bubbles from the one to the other, so [handleDrop] runs twice on
    the [dragData] and [dropTarget] of the same render.  Each run awaits its
    own call. *)
Definition dropOnRow (s : Snapshot) (answerRow answerTree : Answer unit)
           (st : State) : DropRun * DropRun :=
  (handleDrop s answerRow st, handleDrop s answerTree st).

(** [handleDragEnd()] *)
Definition handleDragEnd (st : State) : State := mkState None None.

(** One drag-and-drop event; the snapshot a drop reads is the current one.
    [step_drop] leads to the state once the [finally] of [handleDrop] has
    run.  While the awaited call is pending the slots stay as they were, and
    the clearing that follows the answer is the state change of
    [handleDragEnd], so a drop whose answer arrives after further events is
    a [step_dragEnd] at that point. *)
Inductive step : State -> State -> Prop :=
| step_dragStart st data : step st (handleDragStart st data)
| step_folderRowDragOver st clientY rect folderId :
    step st (folderRowDragOver st clientY rect folderId)
| step_requestRowDragOver st clientY rect reqId :
    step st (requestRowDragOver st clientY rect reqId)
| step_drop s answer st : step st (run_state (handleDrop s answer st))
| step_dragEnd st : step st (handleDragEnd st).

(** The drag states the events lead to from the initial [null], [null]. *)
Inductive reachable : State -> Prop :=
| reachable_initial : reachable (mkState None None)
| reachable_step st st' : reachable st -> step st st' -> reachable st'.

(** A drop target carries the fields its [type] needs. *)
Definition wellFormed (t : DropTarget) : Prop :=
  match type t with
  | type_gap => position t <> None /\ refId t <> None /\ refType t <> None
  | type_folder => targetFolderId t <> None
  end.

End Drag.

Import Drag.

(** ** App.tsx: the multi-tab editing session *)

Module Session.

Local Open Scope string_scope.

(** [interface ParamItem] *)
Record ParamItem : Set := mkParamItem {
  key : string;
  value : string;
  description : string;
  enabled : bool
}.

(** [types.ts]: [interface ExecuteResponse] ([body_json], the parsed body,
    is left out). *)
Record ExecuteResponse : Set := mkExecuteResponse {
  status_code : Z;
  status_text : string;
  resp_headers : list (string * string);
  resp_body : option string;
  response_time_ms : Z;
  response_size : Z;
  warnings : list string
}.

(** [types.ts]: [interface History], the fields [loadFromHistory] reads. *)
Record History : Set := mkHistory {
  h_id : Z;
  h_method : string;
  h_url : string;
  h_request_headers : list (string * string);
  h_request_body : option string;
  h_status_code : Z;
  h_status_text : string;
  h_response_headers : list (string * string);
  h_response_body : option string;
  h_response_time_ms : Z;
  h_response_size : Z
}.

(** [interface RequestTab] *)
Record RequestTab : Set := mkRequestTab {
  id : string;
  requestId : option Z;
  name : string;
  method : string;
  url : string;
  headers : list ParamItem;
  queryParams : list ParamItem;
  body : string;
  folder_id : option Z;
  response : option ExecuteResponse;
  dirty : bool
}.

(** [openTabs], [activeTabId] and the counter behind [makeTabId]. *)
Record State : Set := mkState {
  openTabs : list RequestTab;
  activeTabId : string;
  tabCounter : nat
}.

(** [emptyParam()] *)
Definition emptyParam : ParamItem := mkParamItem "" "" "" true.

(** The template literal [`tab-${n}`]. *)
Definition tabIdOf (n : nat) : string :=
  "tab-" ++ NilEmpty.string_of_uint (Nat.to_uint n).

(** [makeTabId()]: the id and the state with the counter advanced. *)
Definition makeTabId (st : State) : string * State :=
  (tabIdOf (tabCounter st),
   mkState (openTabs st) (activeTabId st) (S (tabCounter st))).

Definition newRequestName : string := "新建请求".

(** The initial values of [useState] and [useRef]. *)
Definition initial : State :=
  mkState
    [mkRequestTab "tab-0" None newRequestName "GET" "" [emptyParam] [emptyParam]
                  "" None None true]
    "tab-0" 1.

(** JavaScript truthiness of a number-or-undefined and of a string. *)
Definition truthyId (i : option Z) : bool :=
  match i with Some n => negb (n =? 0)%Z | None => false end.

Definition truthyString (s : string) : bool := negb (s =? "").

Definition orString (s d : string) : string := if truthyString s then s else d.

(** [currentTab] *)
Definition currentTab (st : State) : option RequestTab :=
  match find (fun t => id t =? activeTabId st) (openTabs st) with
  | Some t => Some t
  | None => hd_error (openTabs st)
  end.

(** The object [currentRequest]. *)
Record CurrentRequest : Set := mkCurrentRequest {
  cr_id : option Z;
  cr_name : string;
  cr_method : string;
  cr_url : string;
  cr_headers : list ParamItem;
  cr_queryParams : list ParamItem;
  cr_body : string;
  cr_folder_id : option Z
}.

Definition currentRequest (st : State) : CurrentRequest :=
  match currentTab st with
  | Some t =>
      mkCurrentRequest (requestId t) (orString (name t) "") (orString (method t) "GET")
                       (orString (url t) "") (headers t) (queryParams t)
                       (orString (body t) "") (folder_id t)
  | None =>
      mkCurrentRequest None "" "GET" "" [emptyParam] [emptyParam] "" None
  end.

Definition withTabs (st : State) (tabs : list RequestTab) : State :=
  mkState tabs (activeTabId st) (tabCounter st).

(** [setCurrentRequest(req)] as created by a render whose [activeTabId] is
    [a]: the updater handed to [setOpenTabs] receives the tabs of the state
    it is applied to, and compares with the captured [a]. *)
Definition setCurrentRequestFrom (a : string) (st : State) (req : CurrentRequest)
  : State :=
  withTabs st
    (map (fun t =>
            if id t =? a
            then mkRequestTab (id t) (cr_id req) (cr_name req) (cr_method req)
                              (cr_url req) (cr_headers req) (cr_queryParams req)
                              (cr_body req) (cr_folder_id req) (response t) true
            else t)
         (openTabs st)).

(** [setCurrentRequest(req)] called from the current render. *)
Definition setCurrentRequest (st : State) (req : CurrentRequest) : State :=
  setCurrentRequestFrom (activeTabId st) st req.

(** [setResponse(resp)] as created by a render whose [activeTabId] is [a]. *)
Definition setResponseFrom (a : string) (st : State) (resp : option ExecuteResponse)
  : State :=
  withTabs st
    (map (fun t =>
            if id t =? a
            then mkRequestTab (id t) (requestId t) (name t) (method t) (url t)
                              (headers t) (queryParams t) (body t) (folder_id t)
                              resp (dirty t)
            else t)
         (openTabs st)).

(** [setResponse(resp)] called from the current render. *)
Definition setResponse (st : State) (resp : option ExecuteResponse) : State :=
  setResponseFrom (activeTabId st) st resp.

(** The field edits of the editor: each call site passes
    [{ ...currentRequest, field: v }] to [setCurrentRequest]. *)
Inductive FieldEdit : Set :=
| edit_method (m : string)
| edit_url (u : string)
| edit_body (b : string)
| edit_headers (hs : list ParamItem)
| edit_queryParams (qs : list ParamItem).

Definition applyEdit (e : FieldEdit) (c : CurrentRequest) : CurrentRequest :=
  match e with
  | edit_method m =>
      mkCurrentRequest (cr_id c) (cr_name c) m (cr_url c) (cr_headers c)
                       (cr_queryParams c) (cr_body c) (cr_folder_id c)
  | edit_url u =>
      mkCurrentRequest (cr_id c) (cr_name c) (cr_method c) u (cr_headers c)
                       (cr_queryParams c) (cr_body c) (cr_folder_id c)
  | edit_body b =>
      mkCurrentRequest (cr_id c) (cr_name c) (cr_method c) (cr_url c) (cr_headers c)
                       (cr_queryParams c) b (cr_folder_id c)
  | edit_headers hs =>
      mkCurrentRequest (cr_id c) (cr_name c) (cr_method c) (cr_url c) hs
                       (cr_queryParams c) (cr_body c) (cr_folder_id c)
  | edit_queryParams qs =>
      mkCurrentRequest (cr_id c) (cr_name c) (cr_method c) (cr_url c) (cr_headers c)
                       qs (cr_body c) (cr_folder_id c)
  end.

Definition editField (st : State) (e : FieldEdit) : State :=
  setCurrentRequest st (applyEdit e (currentRequest st)).

(** [Object.entries(o).map(([key, value]) => ({ key, value, description: '',
    enabled: true })).concat([emptyParam()])] *)
Definition paramsOfEntries (o : list (string * string)) : list ParamItem :=
  map (fun kv => mkParamItem (fst kv) (snd kv) "" true) o ++ [emptyParam].

(** [x || undefined] on a nullable number. *)
Definition orUndefined (i : option Z) : option Z :=
  if truthyId i then i else None.

(** [t.requestId === rid] *)
Definition linkedTo (rid : Z) (t : RequestTab) : bool :=
  match requestId t with
  | Some r => (r =? rid)%Z
  | None => false
  end.

(** [const existing = openTabs.find(t => t.requestId === req.id)] *)
Definition existing (st : State) (req : Request) : option RequestTab :=
  find (linkedTo (r_id req)) (openTabs st).

(** [loadRequest(req)] *)
Definition loadRequest (st : State) (req : Request) : State :=
  match existing st req with
  | Some tab => mkState (openTabs st) (id tab) (tabCounter st)
  | None =>
      let (newId, st1) := makeTabId st in
      let newTab :=
        mkRequestTab newId (Some (r_id req)) (r_name req) (r_method req) (r_url req)
                     (paramsOfEntries (r_headers req))
                     (paramsOfEntries (r_query_params req))
                     match r_body req with Some b => b | None => "" end
                     (orUndefined (r_folder_id req)) None false in
      mkState (openTabs st1 ++ [newTab]) newId (tabCounter st1)
  end.

(** [newRequest(folderId)] *)
Definition newRequest (st : State) (folderId : option Z) : State :=
  let (newId, st1) := makeTabId st in
  let newTab :=
    mkRequestTab newId None newRequestName "GET" "" [emptyParam] [emptyParam]
                 "" folderId None true in
  mkState (openTabs st1 ++ [newTab]) newId (tabCounter st1).

(** [closeTab(tabId)] as created by a render whose [activeTabId] is [a];
    the updater receives the tabs of the state it is applied to.  [None]
    stands for the [TypeError] of reading [newActive.id] when
    [remaining[...]] is [undefined]. *)
Definition closeTabFrom (a : string) (st : State) (tabId : string) : option State :=
  let tabs := openTabs st in
  let remaining := filter (fun t => negb (id t =? tabId)) tabs in
  if a =? tabId then
    if (0 <? Z.of_nat (List.length remaining))%Z then
      let idx := findIndex (fun t => id t =? tabId) tabs in
      let k := Z.min idx (Z.of_nat (List.length remaining) - 1) in
      match (if (k <? 0)%Z then None else nth_error remaining (Z.to_nat k)) with
      | Some newActive => Some (mkState remaining (id newActive) (tabCounter st))
      | None => None
      end
    else Some (mkState remaining "" (tabCounter st))
  else Some (mkState remaining (activeTabId st) (tabCounter st)).

(** [closeTab(tabId)] called from the current render. *)
Definition closeTab (st : State) (tabId : string) : option State :=
  closeTabFrom (activeTabId st) st tabId.

(** [closeOtherTabs(tabId)] *)
Definition closeOtherTabs (st : State) (tabId : string) : State :=
  let keep := filter (fun t => id t =? tabId) (openTabs st) in
  match keep with
  | [] => st
  | _ :: _ => mkState keep tabId (tabCounter st)
  end.

(** [closeAllTabs()] *)
Definition closeAllTabs (st : State) : State := mkState [] "" (tabCounter st).

(** [setActiveTabId(tab.id)], the click on a tab. *)
Definition setActiveTabId (st : State) (tabId : string) : State :=
  mkState (openTabs st) tabId (tabCounter st).

(** [loadFromHistory(h)] *)
Definition loadFromHistory (st : State) (h : History) : State :=
  let (newId, st1) := makeTabId st in
  let newTab :=
    mkRequestTab newId None ("历史记录 - " ++ h_method h) (h_method h) (h_url h)
                 (paramsOfEntries (h_request_headers h)) [emptyParam]
                 match h_request_body h with Some b => b | None => "" end
                 None
                 (Some (mkExecuteResponse (h_status_code h) (h_status_text h)
                                          (h_response_headers h) (h_response_body h)
                                          (h_response_time_ms h) (h_response_size h) []))
                 true in
  mkState (openTabs st1 ++ [newTab]) newId (tabCounter st1).

(** The entries [filter(h => h.key && h.enabled).map(h => [h.key, h.value])]. *)
Definition entriesOfParams (ps : list ParamItem) : list (string * string) :=
  map (fun p => (key p, value p))
      (filter (fun p => truthyString (key p) && enabled p) ps).

(** [const name = nameOverride || currentRequest.name] *)
Definition saveName (cr : CurrentRequest) (nameOverride : option string) : string :=
  match nameOverride with
  | Some n => if truthyString n then n else cr_name cr
  | None => cr_name cr
  end.

(** The body [saveRequest] sends. *)
Definition saveData (cr : CurrentRequest) (nameOverride : option string)
  : RequestData :=
  mkRequestData (Some (saveName cr nameOverride)) (Some (cr_method cr))
                (Some (cr_url cr))
                (Some (entriesOfParams (cr_headers cr)))
                (Some (entriesOfParams (cr_queryParams cr)))
                (if truthyString (cr_body cr) then Some (cr_body cr) else None)
                (cr_folder_id cr).

(** The call [saveRequest] awaits: an update when [currentRequest.id] is
    truthy, a create otherwise. *)
Definition saveCall (cr : CurrentRequest) (nameOverride : option string) : Call :=
  match (if truthyId (cr_id cr) then cr_id cr else None) with
  | Some i => requests_update i (saveData cr nameOverride)
  | None => requests_create (saveData cr nameOverride)
  end.

(** What a run of [saveRequest] does: the calls it issues in order, the
    message it hands to [setError] (if any) and the session afterwards. *)
Record SaveRun : Set := mkSaveRun {
  save_calls : list Call;
  save_error : option string;
  save_state : State
}.

(** [saveRequest] from the point where the awaited call settles.  [a] and
    [cr] are the [activeTabId] and the [currentRequest] of the render
    [saveRequest] was called from; [st] is the session when the answer
    arrives; a resolved [answer] carries the [id] of the request the server
    answers with.  A rejection is caught: the message goes to [setError],
    nothing else happens. *)
Definition saveResume (a : string) (cr : CurrentRequest)
           (nameOverride : option string) (answer : Answer Z) (st : State)
  : SaveRun :=
  match answer with
  | rejected message => mkSaveRun [] (Some message) st
  | resolved createdId =>
      let override :=
        match nameOverride with Some n => truthyString n | None => false end in
      let name' := saveName cr nameOverride in
      let st1 :=
        if truthyId (cr_id cr) then st
        else
          setCurrentRequestFrom a st
            (mkCurrentRequest (Some createdId) name' (cr_method cr) (cr_url cr)
                              (cr_headers cr) (cr_queryParams cr) (cr_body cr)
                              (cr_folder_id cr)) in
      let st2 :=
        withTabs st1
          (map (fun t =>
                  if id t =? a
                  then mkRequestTab (id t) (requestId t)
                                    (if override then name' else name t)
                                    (method t) (url t) (headers t) (queryParams t)
                                    (body t) (folder_id t) (response t) false
                  else t)
               (openTabs st1)) in
      mkSaveRun [loadData] None st2
  end.

(** [saveRequest(nameOverride)] when nothing else happens to the session
    between the call and its answer. *)
Definition saveRequest (st : State) (nameOverride : option string)
           (answer : Answer Z) : SaveRun :=
  let cr := currentRequest st in
  let run := saveResume (activeTabId st) cr nameOverride answer st in
  mkSaveRun (saveCall cr nameOverride :: save_calls run) (save_error run)
            (save_state run).

(** The confirmed [deleteRequest(id)] from the point where the awaited
    delete settles.  [tabs0] and [a0] are the [openTabs] and the
    [activeTabId] of the render [deleteRequest] was called from (the
    [onConfirm] closure looks for the tab in [tabs0] and calls the
    [closeTab] of that render); [st] is the session when the answer arrives.
    A rejection is caught by nobody: the rest of [onConfirm] does not run. *)
Definition deleteResume (tabs0 : list RequestTab) (a0 : string) (rid : Z)
           (answer : Answer unit) (st : State) : list Call * option State :=
  match answer with
  | rejected _ => ([], Some st)
  | resolved _ =>
      ([loadData],
       match find (linkedTo rid) tabs0 with
       | Some tab => closeTabFrom a0 st (id tab)
       | None => Some st
       end)
  end.

(** The confirmed [deleteRequest(id)] when nothing else happens to the
    session between the menu click and the answer. *)
Definition deleteRequest (st : State) (rid : Z) (answer : Answer unit)
  : list Call * option State :=
  let run := deleteResume (openTabs st) (activeTabId st) rid answer st in
  (requests_delete rid :: fst run, snd run).

(** *** The gestures and the continuations of the awaited calls

    The step relation has one step per gesture and one per continuation
    that runs after an [await].  A continuation works with what its render
    captured; it is given any captured value that [closureOk] admits, and a
    create is answered with any id that [createdOk] admits. *)

Section Steps.

Variable createdOk : State -> Z -> Prop.
Variable closureOk : State -> string -> Prop.

Inductive stepWith : State -> State -> Prop :=
| step_loadRequest st req : stepWith st (loadRequest st req)
| step_newRequest st folderId : stepWith st (newRequest st folderId)
| step_loadFromHistory st h : stepWith st (loadFromHistory st h)
| step_editField st e : stepWith st (editField st e)
| step_setResponse st resp : stepWith st (setResponse st resp)
| step_setResponseFrom a st resp :
    (** [setResponse(result)] of [executeRequest], after its [await] *)
    closureOk st a -> stepWith st (setResponseFrom a st resp)
| step_setActiveTabId st t :
    In t (openTabs st) -> stepWith st (setActiveTabId st (id t))
| step_closeTab st tabId st' :
    closeTab st tabId = Some st' -> stepWith st st'
| step_closeTabFrom a st tabId st' :
    (** [closeTab(tab.id)] of the confirmed [deleteRequest], after its
        [await] *)
    closureOk st a -> closeTabFrom a st tabId = Some st' -> stepWith st st'
| step_closeOtherTabs st tabId : stepWith st (closeOtherTabs st tabId)
| step_closeAllTabs st : stepWith st (closeAllTabs st)
| step_saveResume a cr nameOverride answer st :
    (** the rest of [saveRequest], after its [await] *)
    closureOk st a ->
    (forall createdId,
        truthyId (cr_id cr) = false -> answer = resolved createdId ->
        createdOk st createdId) ->
    stepWith st (save_state (saveResume a cr nameOverride answer st)).

(** The session states the steps lead to from the initial one. *)
Inductive reachableWith : State -> Prop :=
| reachable_initial : reachableWith initial
| reachable_step st st' : reachableWith st -> stepWith st st' -> reachableWith st'.

End Steps.

(** No assumption on the server or on what else happens during an [await]. *)
Definition anyId (st : State) (createdId : Z) : Prop := True.
Definition anyClosure (st : State) (a : string) : Prop := True.

(** The server answers a create with an id no open tab is linked to. *)
Definition freshId (st : State) (createdId : Z) : Prop :=
  forall t, In t (openTabs st) -> requestId t <> Some createdId.

(** The continuation runs while the tab it was started from is still the
    active one. *)
Definition currentClosure (st : State) (a : string) : Prop := a = activeTabId st.

Definition step : State -> State -> Prop := stepWith anyId anyClosure.

Definition reachable : State -> Prop := reachableWith anyId anyClosure.

(** Rewriting the tabs with the active id by [g], as the updaters passed to
    [setOpenTabs] do. *)
Definition onActive (a : string) (g : RequestTab -> RequestTab)
           (l : list RequestTab) : list RequestTab :=
  map (fun t => if id t =? a then g t else t) l.

(** The tabs linked to the persisted request [rid]. *)
Definition tabsOfRequest (st : State) (rid : Z) : list RequestTab :=
  filter (linkedTo rid) (openTabs st).

(** The request ids the open tabs are linked to, in tab order. *)
Definition linkedIds (tabs : list RequestTab) : list Z :=
  flat_map (fun t => match requestId t with Some r => [r] | None => [] end) tabs.

(** What every reachable session satisfies: tab ids are unique and were
    produced by the counter (or are the initial [tab-0]). *)
Record Inv (st : State) : Prop := mkInv {
  inv_ids : NoDup (map id (openTabs st));
  inv_counter :
    forall i, In i (map id (openTabs st)) ->
              exists k, (k < tabCounter st)%nat /\ i = tabIdOf k
}.

(** No two tabs are linked to the same request. *)
Definition Linked (st : State) : Prop := NoDup (linkedIds (openTabs st)).

(** The active id names an open tab, or nothing is open and it is empty. *)
Definition ActiveOk (st : State) : Prop :=
  (exists t, In t (openTabs st) /\ id t = activeTabId st)
  \/ (openTabs st = [] /\ activeTabId st = "").

(** *** The rows of the parameter and header tables

    The handlers receive the index [i] of a rendered row, which is in
    range; [None] stands for an index outside the list, which no handler
    is called with. *)

(** [arr[i] = f(arr[i])] on a copy. *)
Definition updateRow (ps : list ParamItem) (i : nat) (f : ParamItem -> ParamItem)
  : option (list ParamItem) :=
  match nth_error ps i with
  | Some p => Some (firstn i ps ++ f p :: skipn (S i) ps)%list
  | None => None
  end.

(** [arr[arr.length - 1]] *)
Definition lastRow (ps : list ParamItem) : option ParamItem :=
  match ps with
  | [] => None
  | _ :: _ => nth_error ps (List.length ps - 1)
  end.

(** The check box of a row. *)
Definition setParamEnabled (ps : list ParamItem) (i : nat) (b : bool)
  : option (list ParamItem) :=
  updateRow ps i (fun p => mkParamItem (key p) (value p) (description p) b).

(** The key input of a row: typing into the last row adds a blank one. *)
Definition setParamKey (ps : list ParamItem) (i : nat) (v : string)
  : option (list ParamItem) :=
  match updateRow ps i (fun p => mkParamItem v (value p) (description p) (enabled p)) with
  | Some arr =>
      Some (if Nat.eqb i (List.length arr - 1) && truthyString v
            then (arr ++ [emptyParam])%list else arr)
  | None => None
  end.

(** The value input of a row. *)
Definition setParamValue (ps : list ParamItem) (i : nat) (v : string)
  : option (list ParamItem) :=
  updateRow ps i (fun p => mkParamItem (key p) v (description p) (enabled p)).

(** The description input of a row. *)
Definition setParamDescription (ps : list ParamItem) (i : nat) (v : string)
  : option (list ParamItem) :=
  updateRow ps i (fun p => mkParamItem (key p) (value p) v (enabled p)).

(** [ps.filter((_, idx) => idx !== i)] *)
Fixpoint dropIndex (ps : list ParamItem) (i : nat) : list ParamItem :=
  match ps, i with
  | [], _ => []
  | _ :: rest, O => rest
  | p :: rest, S j => p :: dropIndex rest j
  end.

(** The remove button of a row. *)
Definition removeParam (ps : list ParamItem) (i : nat) : list ParamItem :=
  let arr := dropIndex ps i in
  match lastRow arr with
  | None => (arr ++ [emptyParam])%list
  | Some p => if truthyString (key p) then (arr ++ [emptyParam])%list else arr
  end.

(** The last row exists and its key is empty. *)
Definition EndsBlank (ps : list ParamItem) : Prop :=
  exists p, lastRow ps = Some p /\ key p = "".

End Session.

(** ** App.tsx: the remaining view state *)

Module Ui.

Local Open Scope string_scope.

(** [expandedFolders], a [Set<number>]: its elements in insertion order. *)
Definition has (expanded : list Z) (i : Z) : bool := existsb (Z.eqb i) expanded.

(** [toggleFolder(id)]: the new value of [expandedFolders]. *)
Definition toggleFolder (expanded : list Z) (i : Z) : list Z :=
  if has expanded i
  then filter (fun x => negb (x =? i)%Z) expanded
  else expanded ++ [i].

(** A number inside a template literal (an integer here). *)
Definition showZ (n : Z) : string := NilEmpty.string_of_int (Z.to_int n).

(** [formatTimeAgo(dateStr)] as a function of [diffMs], the difference of
    the two [getTime()] values of its first line. *)
Definition formatTimeAgo (diffMs : Z) : string :=
  let mins := (diffMs / 60000)%Z in
  if (mins <? 1)%Z then "刚刚"
  else if (mins <? 60)%Z then showZ mins ++ "分钟前"
  else
    let hours := (diffMs / 3600000)%Z in
    if (hours <? 24)%Z then showZ hours ++ "小时前"
    else showZ (diffMs / 86400000)%Z ++ "天前".

(** The two sizes the mouse can drag, with the flags of their handles. *)
Record Resize : Set := mkResize {
  isResizing : bool;
  isResizingResponse : bool;
  sidebarWidth : Q;
  responsePanelHeight : Q
}.

(** [Math.max] and [Math.min] on numbers. *)
Definition mathMax (a b : Q) : Q := if Qle_bool a b then b else a.
Definition mathMin (a b : Q) : Q := if Qle_bool a b then a else b.

(** [handleMouseMove(e)]; [container] is the bounding rectangle of
    [responseContainerRef.current] ([bottom], [height]) when it is mounted. *)
Definition handleMouseMove (st : Resize) (clientX clientY : Q)
           (container : option (Q * Q)) : Resize :=
  let st1 :=
    if isResizing st then
      let newWidth := (clientX - 48)%Q in
      mkResize (isResizing st) (isResizingResponse st)
               (mathMax 180 (mathMin 500 newWidth)) (responsePanelHeight st)
    else st in
  match isResizingResponse st1, container with
  | true, Some (bottom, containerHeight) =>
      let newHeight := (bottom - clientY)%Q in
      mkResize (isResizing st1) (isResizingResponse st1) (sidebarWidth st1)
               (mathMax 100 (mathMin (containerHeight - 100)%Q newHeight))
  | _, _ => st1
  end.

(** [handleMouseUp()] *)
Definition handleMouseUp (st : Resize) : Resize :=
  mkResize false false (sidebarWidth st) (responsePanelHeight st).

End Ui.

(** ** Sample data for the concrete instances *)

Module Samples.

Local Open Scope string_scope.

(** A sibling that carries nothing but its id, [{ id: n }]. *)
Record Item : Set := mkItem { item_id : Z }.

Definition req (i : Z) : Request :=
  mkRequest i "r" "GET" "http://localhost/" [] [] None None 0.

(** Folder 1 holds folder 2, which holds folder 3 and request 10. *)
Definition inner : Folder := mkFolder 3 "inner" (Some 2) 0 [] [].
Definition middle : Folder := mkFolder 2 "middle" (Some 1) 0 [inner] [req 10].
Definition outer : Folder := mkFolder 1 "outer" None 0 [middle] [].

Definition snapshot : Snapshot := mkSnapshot [outer] [req 20; req 21].

Definition row : Rect := mkRect 100 40.

Definition dragging (k : DragItemType) (i : Z) : Drag.State :=
  Drag.mkState (Some (mkDragData k i None)) None.

End Samples.

(** * Properties *)

(** ** The reorder engine *)

Section ReorderFacts.

Context {T : Type}.
Variable id : T -> Z.

Lemma findIndex_range (p : T -> bool) (l : list T) :
  findIndex p l = -1 \/ 0 <= findIndex p l < Z.of_nat (List.length l).
Proof.
  induction l as [|x l IH]; simpl; [now left|].
  destruct (p x); [right; lia|].
  destruct IH as [-> | IH]; [now left|].
  destruct (Z.eqb_spec (findIndex p l) (-1)); [lia|right; lia].
Qed.

Lemma findIndex_absent (p : T -> bool) (l : list T) :
  (forall x, In x l -> p x = false) -> findIndex p l = -1.
Proof.
  induction l as [|x l IH]; simpl; intros H; [reflexivity|].
  rewrite (H x (or_introl eq_refl)), IH; auto.
Qed.

Lemma findIndex_split (p : T -> bool) (l : list T) :
  findIndex p l <> -1 ->
  exists l1 y l2,
    l = l1 ++ y :: l2 /\ p y = true /\
    (forall x, In x l1 -> p x = false) /\
    findIndex p l = Z.of_nat (List.length l1).
Proof.
  induction l as [|x l IH]; simpl; [congruence|].
  destruct (p x) eqn:Hx; intros Hne.
  - exists [], x, l. repeat split; auto. simpl; tauto.
  - destruct (Z.eqb_spec (findIndex p l) (-1)) as [|Hn]; [congruence|].
    destruct (IH Hn) as (l1 & y & l2 & -> & Hy & Hl1 & Hi).
    exists (x :: l1), y, l2. repeat split; auto.
    + intros z [<-|Hz]; auto.
    + rewrite Hi. simpl List.length. lia.
Qed.

Lemma findIndex_present (p : T -> bool) (l : list T) (y : T) :
  In y l -> p y = true -> findIndex p l <> -1.
Proof.
  induction l as [|x l IH]; simpl; [tauto|].
  intros [<-|Hin] Hy.
  - rewrite Hy. lia.
  - destruct (p x); [lia|].
    specialize (IH Hin Hy).
    destruct (Z.eqb_spec (findIndex p l) (-1)); [congruence|].
    destruct (findIndex_range p l); lia.
Qed.

Lemma splice_insert_at (l1 l2 : list T) (x : T) :
  splice_insert (l1 ++ l2) (Z.of_nat (List.length l1)) x = l1 ++ x :: l2.
Proof.
  unfold splice_insert.
  destruct (Z.ltb_spec (Z.of_nat (List.length l1)) 0); [lia|].
  rewrite length_app, Z.min_l by lia.
  rewrite Nat2Z.id, firstn_app, skipn_app, Nat.sub_diag, firstn_all, skipn_all.
  simpl. now rewrite app_nil_r.
Qed.

Lemma splice_insert_after (l1 l2 : list T) (y x : T) :
  splice_insert (l1 ++ y :: l2) (Z.of_nat (List.length l1) + 1) x
  = l1 ++ y :: x :: l2.
Proof.
  replace (Z.of_nat (List.length l1) + 1) with (Z.of_nat (List.length (l1 ++ [y])))
    by (rewrite length_app; simpl; lia).
  replace (l1 ++ y :: l2) with ((l1 ++ [y]) ++ l2) by now rewrite <- app_assoc.
  rewrite splice_insert_at, <- app_assoc. reflexivity.
Qed.

Lemma find_id_In (l : list T) (a : Z) :
  In a (map id l) -> exists x, find (fun item => id item =? a) l = Some x.
Proof.
  intros Hin. destruct (find _ l) eqn:Hf; [eauto|].
  apply in_map_iff in Hin. destruct Hin as (x & Hx & Hin).
  pose proof (find_none _ _ Hf x Hin) as Hn. simpl in Hn.
  rewrite Hx, Z.eqb_refl in Hn. discriminate.
Qed.

Lemma find_id_notin (l : list T) (a : Z) :
  ~ In a (map id l) -> find (fun item => id item =? a) l = None.
Proof.
  intros Hn. destruct (find _ l) eqn:Hf; [|reflexivity].
  apply find_some in Hf. destruct Hf as [Hin Heq].
  apply Z.eqb_eq in Heq. exfalso. apply Hn. rewrite <- Heq. now apply in_map.
Qed.

Lemma filter_drag_notin (l : list T) (a : Z) :
  ~ In a (map id l) -> filter (fun item => negb (id item =? a)) l = l.
Proof.
  induction l as [|x l IH]; simpl; intros Hn; [reflexivity|].
  destruct (Z.eqb_spec (id x) a); [tauto|]. simpl. f_equal. tauto.
Qed.

Lemma unique_drag_permutation (l : list T) (a : Z) (x : T) :
  NoDup (map id l) ->
  find (fun item => id item =? a) l = Some x ->
  Permutation l (x :: filter (fun item => negb (id item =? a)) l).
Proof.
  induction l as [|z l IH]; simpl; [discriminate|].
  intros Hnd Hf. inversion Hnd as [|? ? Hnotin Hnd']; subst.
  destruct (Z.eqb_spec (id z) a) as [Hz|Hz]; simpl.
  - injection Hf as ->. rewrite filter_drag_notin; [reflexivity|congruence].
  - rewrite perm_swap. constructor. auto.
Qed.

Lemma reorderList_shape (S : list T) (a b : Z) :
  In a (map id S) -> In b (map id S) -> a <> b ->
  exists x y l1 l2,
    find (fun item => id item =? a) S = Some x /\
    id x = a /\ id y = b /\
    (forall z, In z l1 -> id z <> b) /\
    filter (fun item => negb (id item =? a)) S = l1 ++ y :: l2 /\
    reorderList id S a b before = l1 ++ x :: y :: l2 /\
    reorderList id S a b after = l1 ++ y :: x :: l2.
Proof.
  intros Ha Hb Hab.
  destruct (find_id_In S a Ha) as [x Hx].
  assert (Hidx : id x = a)
    by (apply find_some in Hx; now apply Z.eqb_eq).
  set (remaining := filter (fun item => negb (id item =? a)) S).
  assert (Hne : findIndex (fun item => id item =? b) remaining <> -1).
  { apply in_map_iff in Hb. destruct Hb as (y & Hy & Hin).
    apply findIndex_present with y.
    - apply filter_In. split; [assumption|].
      apply negb_true_iff, Z.eqb_neq. congruence.
    - now apply Z.eqb_eq. }
  destruct (findIndex_split _ _ Hne) as (l1 & y & l2 & Hsplit & Hy & Hl1 & Hi).
  exists x, y, l1, l2.
  split; [assumption|]. split; [assumption|].
  split; [now apply Z.eqb_eq|].
  split; [intros z Hz; apply Z.eqb_neq; auto|].
  split; [assumption|].
  unfold reorderList. rewrite Hx. fold remaining.
  destruct (Z.eqb_spec (findIndex (fun item => id item =? b) remaining) (-1));
    [contradiction|].
  rewrite Hi, Hsplit. split.
  - apply splice_insert_at.
  - apply splice_insert_after.
Qed.

End ReorderFacts.

Lemma filter_idem {A : Type} (f : A -> bool) (l : list A) :
  filter f (filter f l) = filter f l.
Proof.
  induction l as [|x l IH]; simpl; [reflexivity|].
  destruct (f x) eqn:Hx; simpl; [rewrite Hx; f_equal|]; exact IH.
Qed.

(** C2. For a sibling sequence [S] holding items with the distinct ids [a]
    and [b], [reorderList S a b before] is the sequence of the other items,
    in their order, with the dragged item put immediately before the
    reference item, and [reorderList S a b after] has it immediately after;
    the other items keep their relative order, and with unique ids the
    result is a rearrangement of [S].  In particular
    [reorderList [{id:1},{id:2},{id:3}] 3 1 before = [{id:3},{id:1},{id:2}]]. *)
Theorem reorderList_adjacent :
  (forall (T : Type) (id : T -> Z) (S : list T) (a b : Z),
      In a (map id S) -> In b (map id S) -> a <> b ->
      let others := fun l => filter (fun item => negb (id item =? a)) l in
      exists x y l1 l2,
        In x S /\ id x = a /\ id y = b /\
        others S = l1 ++ y :: l2 /\
        reorderList id S a b before = l1 ++ x :: y :: l2 /\
        reorderList id S a b after = l1 ++ y :: x :: l2 /\
        others (reorderList id S a b before) = others S /\
        others (reorderList id S a b after) = others S /\
        (NoDup (map id S) ->
         Permutation S (reorderList id S a b before) /\
         Permutation S (reorderList id S a b after)))
  /\ reorderList Samples.item_id
       [Samples.mkItem 1; Samples.mkItem 2; Samples.mkItem 3] 3 1 before
     = [Samples.mkItem 3; Samples.mkItem 1; Samples.mkItem 2].
Proof.
  split; [|reflexivity].
  intros T id S a b Ha Hb Hab others.
  destruct (reorderList_shape id S a b Ha Hb Hab)
    as (x & y & l1 & l2 & Hx & Hidx & Hidy & _ & Hrem & Hbef & Haft).
  assert (Hdrop : forall u v, others (u ++ x :: v) = others (u ++ v)).
  { intros u v. unfold others. rewrite !filter_app. simpl.
    rewrite Hidx, Z.eqb_refl. reflexivity. }
  assert (Hself : others (l1 ++ y :: l2) = others S).
  { rewrite <- Hrem. apply filter_idem. }
  exists x, y, l1, l2.
  split; [now apply find_some in Hx|].
  do 4 (split; [assumption|]).
  split; [assumption|].
  split; [rewrite Hbef, Hdrop; exact Hself|].
  split.
  { rewrite Haft. change (l1 ++ y :: x :: l2) with (l1 ++ [y] ++ x :: l2).
    rewrite app_assoc, Hdrop, <- app_assoc. exact Hself. }
  intros Hnd.
  pose proof (unique_drag_permutation id S a x Hnd Hx) as Hperm.
  unfold others in Hrem. rewrite Hrem in Hperm.
  rewrite Hbef, Haft. split.
  - rewrite Hperm. apply Permutation_middle.
  - rewrite Hperm.
    change (l1 ++ y :: x :: l2) with (l1 ++ [y] ++ x :: l2).
    change (l1 ++ y :: l2) with (l1 ++ [y] ++ l2).
    rewrite !app_assoc. apply Permutation_middle.
Qed.

Lemma reorderList_adjacent_witness :
  let S := [Samples.mkItem 1; Samples.mkItem 2; Samples.mkItem 3] in
  let others := fun l => filter (fun item => negb (Samples.item_id item =? 3)) l in
  exists x y l1 l2,
    In x S /\ Samples.item_id x = 3 /\ Samples.item_id y = 1 /\
    others S = l1 ++ y :: l2 /\
    reorderList Samples.item_id S 3 1 before = l1 ++ x :: y :: l2 /\
    reorderList Samples.item_id S 3 1 after = l1 ++ y :: x :: l2 /\
    others (reorderList Samples.item_id S 3 1 before) = others S /\
    others (reorderList Samples.item_id S 3 1 after) = others S /\
    (NoDup (map Samples.item_id S) ->
     Permutation S (reorderList Samples.item_id S 3 1 before) /\
     Permutation S (reorderList Samples.item_id S 3 1 after)).
Proof.
  intros S others.
  apply (proj1 reorderList_adjacent Samples.Item Samples.item_id S 3 1).
  - simpl. right. right. left. reflexivity.
  - simpl. left. reflexivity.
  - lia.
Defined.

(** C5. [reorderList S d r p] is [S] itself whenever no item of [S] has the
    id [d], and whenever no item left after taking the dragged item out has
    the id [r]. *)
Theorem reorderList_absent_unchanged :
  forall (T : Type) (id : T -> Z) (S : list T) (d r : Z) (p : GapPosition),
    ~ In d (map id S) \/
    ~ In r (map id (filter (fun item => negb (id item =? d)) S)) ->
    reorderList id S d r p = S.
Proof.
  intros T id S d r p [Hd | Hr]; unfold reorderList.
  - now rewrite (find_id_notin id S d Hd).
  - destruct (find _ S); [|reflexivity].
    rewrite findIndex_absent; [reflexivity|].
    intros x Hx. apply Z.eqb_neq. intros Heq. apply Hr.
    rewrite <- Heq. now apply in_map.
Qed.

Lemma reorderList_absent_unchanged_witness :
  reorderList Samples.item_id [Samples.mkItem 1; Samples.mkItem 2] 7 1 before
  = [Samples.mkItem 1; Samples.mkItem 2]
  /\ reorderList Samples.item_id [Samples.mkItem 1; Samples.mkItem 2] 1 9 after
     = [Samples.mkItem 1; Samples.mkItem 2].
Proof.
  split.
  - apply reorderList_absent_unchanged. left. simpl. lia.
  - apply reorderList_absent_unchanged. right. simpl. lia.
Defined.

(** ** The tree model *)

Lemma searchFolderRequests_unfold (refId : Z) i n p s children requests :
  searchFolderRequests refId (mkFolder i n p s children requests)
  = if existsb (fun r => r_id r =? refId) requests then Some requests
    else searchFoldersRequests refId children.
Proof.
  simpl. destruct (existsb _ requests); [reflexivity|].
  induction children as [|c rest IH]; simpl; [reflexivity|].
  destruct (searchFolderRequests refId c); [reflexivity|exact IH].
Qed.

Lemma searchFolderChildren_unfold (refId : Z) i n p s children requests :
  searchFolderChildren refId (mkFolder i n p s children requests)
  = if existsb (fun f => f_id f =? refId) children then Some children
    else searchFoldersChildren refId children.
Proof.
  simpl. destruct (existsb _ children); [reflexivity|].
  induction children as [|c rest IH]; simpl; [reflexivity|].
  destruct (searchFolderChildren refId c); [reflexivity|exact IH].
Qed.

Lemma folderRequestIds_unfold i n p s children requests :
  folderRequestIds (mkFolder i n p s children requests)
  = map r_id requests ++ foldersRequestIds children.
Proof.
  reflexivity.
Qed.

Lemma folderIds_unfold i n p s children requests :
  folderIds (mkFolder i n p s children requests) = i :: foldersIds children.
Proof.
  reflexivity.
Qed.

Lemma existsb_id_absent {A : Type} (id : A -> Z) (refId : Z) (l : list A) :
  ~ In refId (map id l) -> existsb (fun x => id x =? refId) l = false.
Proof.
  induction l as [|x l IH]; simpl; intros Hn; [reflexivity|].
  destruct (Z.eqb_spec (id x) refId); [tauto|]. simpl. tauto.
Qed.

Lemma foldersIds_roots (flds : list Folder) (i : Z) :
  In i (map f_id flds) -> In i (foldersIds flds).
Proof.
  induction flds as [|c rest IH]; simpl; [tauto|].
  intros [<-|Hin]; apply in_or_app.
  - left. destruct c. simpl. now left.
  - right. auto.
Qed.

Lemma searchFolderRequests_absent (refId : Z) (fld : Folder) :
  ~ In refId (folderRequestIds fld) -> searchFolderRequests refId fld = None.
Proof.
  induction fld as [i n p s children requests IH] using Folder_ind'.
  rewrite folderRequestIds_unfold, searchFolderRequests_unfold. intros Hn.
  rewrite existsb_id_absent by (intros H; apply Hn, in_or_app; now left).
  assert (Hc : ~ In refId (foldersRequestIds children))
    by (intros H; apply Hn, in_or_app; now right).
  clear Hn. induction IH as [|c rest Hc' _ IHrest]; simpl in *; [reflexivity|].
  rewrite Hc' by (intros H; apply Hc, in_or_app; now left).
  apply IHrest. intros H; apply Hc, in_or_app; now right.
Qed.

Lemma searchFoldersRequests_absent (refId : Z) (flds : list Folder) :
  ~ In refId (foldersRequestIds flds) -> searchFoldersRequests refId flds = None.
Proof.
  induction flds as [|c rest IH]; simpl; intros Hn; [reflexivity|].
  rewrite searchFolderRequests_absent by (intros H; apply Hn, in_or_app; now left).
  apply IH. intros H; apply Hn, in_or_app; now right.
Qed.

Lemma searchFolderChildren_absent (refId : Z) (fld : Folder) :
  ~ In refId (folderIds fld) -> searchFolderChildren refId fld = None.
Proof.
  induction fld as [i n p s children requests IH] using Folder_ind'.
  rewrite folderIds_unfold, searchFolderChildren_unfold. intros Hn.
  assert (Hc : ~ In refId (foldersIds children))
    by (intros H; apply Hn; now right).
  rewrite existsb_id_absent by (intros H; apply Hc; now apply foldersIds_roots).
  clear Hn. induction IH as [|c rest Hc' _ IHrest]; simpl in *; [reflexivity|].
  rewrite Hc' by (intros H; apply Hc, in_or_app; now left).
  apply IHrest. intros H; apply Hc, in_or_app; now right.
Qed.

Lemma searchFoldersChildren_absent (refId : Z) (flds : list Folder) :
  ~ In refId (foldersIds flds) -> searchFoldersChildren refId flds = None.
Proof.
  induction flds as [|c rest IH]; simpl; intros Hn; [reflexivity|].
  rewrite searchFolderChildren_absent by (intros H; apply Hn, in_or_app; now left).
  apply IH. intros H; apply Hn, in_or_app; now right.
Qed.

Lemma getSiblingRequests_absent (s : Snapshot) (refId : Z) :
  ~ In refId (allRequestIds s) -> getSiblingRequests s refId = [].
Proof.
  unfold allRequestIds, getSiblingRequests. intros Hn.
  rewrite existsb_id_absent by (intros H; apply Hn, in_or_app; now left).
  rewrite searchFoldersRequests_absent; [reflexivity|].
  intros H; apply Hn, in_or_app; now right.
Qed.

Lemma getSiblingFolders_absent (s : Snapshot) (refId : Z) :
  ~ In refId (allFolderIds s) -> getSiblingFolders s refId = [].
Proof.
  unfold allFolderIds, getSiblingFolders. intros Hn.
  rewrite existsb_id_absent by (intros H; apply Hn; now apply foldersIds_roots).
  now rewrite searchFoldersChildren_absent.
Qed.

(** ** Drops *)

(** What [handleDrop] does once the calls of the gap or folder handler
    are known. *)
Lemma handleDrop_calls (s : Snapshot) (answer : Answer unit)
      (drag : DragData) (target : DropTarget) (calls : list Call) :
  match type target with
  | type_gap => handleGapDrop s drag target
  | type_folder => handleFolderDrop drag target
  end = calls ->
  handleDrop s answer (Drag.mkState (Some drag) (Some target))
  = match calls, answer with
    | _ :: _, rejected message =>
        mkDropRun calls (Some message) (Drag.mkState None None)
    | _, _ => mkDropRun (calls ++ [loadData]) None (Drag.mkState None None)
    end.
Proof.
  intros H. unfold handleDrop. cbn [dragData dropTarget]. rewrite H.
  destruct calls, answer; reflexivity.
Qed.

(** C4 (as amended). When the reference id of a gap drop is the id of no
    request and of no folder of the snapshot, both sibling lookups return
    the empty list; with matching kinds the handler still issues one reorder
    call, carrying the empty id list, and with differing kinds it issues
    none.  [handleDrop] reloads when the server accepts the call (or when
    none was issued); when the server refuses it, the failure is caught, its
    message is shown as the error and no reload follows.  Either way the drag
    state is cleared.  A drop released on a row runs [handleDrop] twice, so
    with matching kinds two such reorder calls are issued. *)
Theorem gap_drop_missing_reference :
  forall (s : Snapshot) (drag : DragData) (pos : GapPosition) (r : Z)
         (k : DragItemType) (answer answer' : Answer unit),
    ~ In r (allRequestIds s) -> ~ In r (allFolderIds s) ->
    let target := mkDropTarget type_gap (Some pos) (Some r) (Some k) None in
    let st := Drag.mkState (Some drag) (Some target) in
    let calls :=
      match drag_type drag, k with
      | request, request => [requests_reorder []]
      | folder, folder => [folders_reorder []]
      | _, _ => []
      end in
    getSiblingRequests s r = [] /\
    getSiblingFolders s r = [] /\
    handleGapDrop s drag target = calls /\
    handleDrop s answer st
    = match calls, answer with
      | _ :: _, rejected message =>
          mkDropRun calls (Some message) (Drag.mkState None None)
      | _, _ => mkDropRun (calls ++ [loadData]) None (Drag.mkState None None)
      end /\
    (let (first, second) := dropOnRow s answer answer' st in
     filter isMutation (run_calls first ++ run_calls second) = calls ++ calls).
Proof.
  intros s drag pos r k answer answer' Hr Hf target st calls.
  pose proof (getSiblingRequests_absent s r Hr) as Hsr.
  pose proof (getSiblingFolders_absent s r Hf) as Hsf.
  assert (Hgap : handleGapDrop s drag target = calls).
  { unfold handleGapDrop, calls, target. simpl.
    destruct (drag_type drag), k; try reflexivity.
    - rewrite Hsr. reflexivity.
    - rewrite Hsf. reflexivity. }
  assert (Hrun : forall a, handleDrop s a st
                 = match calls, a with
                   | _ :: _, rejected message =>
                       mkDropRun calls (Some message) (Drag.mkState None None)
                   | _, _ =>
                       mkDropRun (calls ++ [loadData]) None (Drag.mkState None None)
                   end).
  { intros a. apply handleDrop_calls. exact Hgap. }
  split; [exact Hsr|]. split; [exact Hsf|]. split; [exact Hgap|].
  split; [apply Hrun|].
  unfold dropOnRow. rewrite (Hrun answer), (Hrun answer').
  unfold calls. destruct (drag_type drag), k, answer, answer'; reflexivity.
Qed.

Lemma gap_drop_missing_reference_witness :
  let target := mkDropTarget type_gap (Some before) (Some 99) (Some request) None in
  let st := Drag.mkState (Some (mkDragData request 20 None)) (Some target) in
  getSiblingRequests Samples.snapshot 99 = [] /\
  getSiblingFolders Samples.snapshot 99 = [] /\
  handleGapDrop Samples.snapshot (mkDragData request 20 None) target
  = [requests_reorder []] /\
  handleDrop Samples.snapshot (rejected "HTTP 500") st
  = mkDropRun [requests_reorder []] (Some "HTTP 500"%string) (Drag.mkState None None) /\
  (let (first, second) :=
     dropOnRow Samples.snapshot (rejected "HTTP 500") (resolved tt) st in
   filter isMutation (run_calls first ++ run_calls second)
   = [requests_reorder []; requests_reorder []]).
Proof.
  apply (gap_drop_missing_reference Samples.snapshot (mkDragData request 20 None)
                                    before 99 request
                                    (rejected "HTTP 500") (resolved tt)).
  - vm_compute. intuition discriminate.
  - vm_compute. intuition discriminate.
Defined.

(** C4, as stated, fails: dragging request 20 onto a gap whose reference
    id 99 is nowhere in the tree issues the call [requests_reorder []],
    whatever the server answers. *)
Lemma gap_drop_missing_reference_persists :
  let s := Samples.snapshot in
  let st := Drag.mkState (Some (mkDragData request 20 None))
                         (Some (gapTarget before 99 request)) in
  ~ In 99 (allRequestIds s) /\ ~ In 99 (allFolderIds s) /\
  getSiblingRequests s 99 = [] /\
  forall answer : Answer unit,
    filter isMutation (run_calls (handleDrop s answer st)) = [requests_reorder []] /\
    filter isMutation (run_calls (handleDrop s answer st)) <> [].
Proof.
  split; [vm_compute; intuition discriminate|].
  split; [vm_compute; intuition discriminate|].
  split; [reflexivity|].
  intros [[]|message]; split; try reflexivity; discriminate.
Qed.

(** C1 (as amended). A Container drop of a folder onto any folder, a
    descendant of the dragged folder and the dragged folder itself included,
    is not rejected by the client: each run of [handleDrop] issues the folder
    update that sets [parent_folder_id] to the destination; no descendant
    check is made.  A reload follows when the server accepts the update; when
    it refuses, the message is shown as the error and no reload follows.  The
    client leaves its own snapshot as it is.  A drop released on a row runs
    [handleDrop] twice, so the update is issued twice. *)
Theorem folder_drop_always_persists :
  forall (s : Snapshot) (drag : DragData) (dest : Z) (answer answer' : Answer unit),
    drag_type drag = folder ->
    let target := mkDropTarget type_folder None None None (Some dest) in
    let st := Drag.mkState (Some drag) (Some target) in
    let update := folders_update (drag_id drag) (mkFolderData None (Some dest)) in
    handleFolderDrop drag target = [update] /\
    handleDrop s answer st
    = match answer with
      | resolved _ => mkDropRun [update; loadData] None (Drag.mkState None None)
      | rejected message => mkDropRun [update] (Some message) (Drag.mkState None None)
      end /\
    (let (first, second) := dropOnRow s answer answer' st in
     filter isMutation (run_calls first ++ run_calls second) = [update; update]).
Proof.
  intros s drag dest answer answer' Hk target st update.
  assert (Hfold : handleFolderDrop drag target = [update]).
  { unfold handleFolderDrop. now rewrite Hk. }
  assert (Hrun : forall a, handleDrop s a st
                 = match a with
                   | resolved _ =>
                       mkDropRun [update; loadData] None (Drag.mkState None None)
                   | rejected message =>
                       mkDropRun [update] (Some message) (Drag.mkState None None)
                   end).
  { intros a. unfold st. rewrite (handleDrop_calls s a drag target [update] Hfold).
    now destruct a. }
  split; [exact Hfold|]. split; [apply Hrun|].
  unfold dropOnRow. rewrite (Hrun answer), (Hrun answer').
  destruct answer, answer'; reflexivity.
Qed.

Lemma folder_drop_always_persists_witness :
  let target := mkDropTarget type_folder None None None (Some 3) in
  let st := Drag.mkState (Some (mkDragData folder 1 None)) (Some target) in
  let update := folders_update 1 (mkFolderData None (Some 3)) in
  isSelfOrDescendant Samples.snapshot 1 3 = true /\
  handleFolderDrop (mkDragData folder 1 None) target = [update] /\
  handleDrop Samples.snapshot (resolved tt) st
  = mkDropRun [update; loadData] None (Drag.mkState None None) /\
  (let (first, second) :=
     dropOnRow Samples.snapshot (resolved tt) (rejected "HTTP 400") st in
   filter isMutation (run_calls first ++ run_calls second) = [update; update]).
Proof.
  split; [reflexivity|].
  apply (folder_drop_always_persists Samples.snapshot (mkDragData folder 1 None) 3
                                     (resolved tt) (rejected "HTTP 400")).
  reflexivity.
Defined.

(** C1, as stated, fails: folder 3 lies below folder 1; dragging folder 1
    over the middle of the row of folder 3 and dropping it there issues the
    update [folders_update 1 {parent_folder_id: 3}], whatever the server
    answers. *)
Lemma folder_drop_into_descendant_persists :
  let s := Samples.snapshot in
  let st0 := handleDragStart (Drag.mkState None None) (mkDragData folder 1 None) in
  let st1 := folderRowDragOver st0 120 Samples.row 3 in
  isSelfOrDescendant s 1 3 = true /\
  dropTarget st1 = Some (folderTarget 3) /\
  forall answer : Answer unit,
    filter isMutation (run_calls (handleDrop s answer st1))
    = [folders_update 1 (mkFolderData None (Some 3))] /\
    filter isMutation (run_calls (handleDrop s answer st1)) <> [].
Proof.
  split; [reflexivity|]. split; [reflexivity|].
  intros [[]|message]; split; try reflexivity; discriminate.
Qed.

(** [isValidDrop] itself accepts a gap only for matching kinds. *)
Lemma isValidDrop_gap_kinds (d : DragItemType) (t : DropTarget) :
  isValidDrop d t = true -> type t = type_gap -> refType t = Some d.
Proof.
  unfold isValidDrop. intros Hv Ht. rewrite Ht in Hv.
  destruct d, (refType t) as [[]|]; simpl in Hv; congruence.
Qed.

(** C3 (the code at the failing input). A request is dragged over the top
    quarter of the row of folder 2: the active drop target becomes a gap
    whose reference kind is [folder], which [isValidDrop] rejects, and the
    gap indicator before folder 2 is rendered; likewise for a folder
    dragged over a request row. *)
Theorem mismatched_gap_is_surfaced :
  let st := folderRowDragOver (Samples.dragging request 20) 105 Samples.row 2 in
  let st' := requestRowDragOver (Samples.dragging folder 1) 135 Samples.row 20 in
  dropTarget st = Some (gapTarget before 2 folder) /\
  isValidDrop request (gapTarget before 2 folder) = false /\
  renderGapIndicator st before 2 = true /\
  dropTarget st' = Some (gapTarget after 20 request) /\
  isValidDrop folder (gapTarget after 20 request) = false /\
  renderGapIndicator st' after 20 = true.
Proof.
  vm_compute. repeat split.
Qed.

(** ** Binary64 comparison *)












(** ** The drop resolver *)








(** ** The editing session *)

Module SessionFacts.

Import Session.

Lemma findIndex_first {A : Type} (p : A -> bool) (l1 l2 : list A) (y : A) :
  (forall x, In x l1 -> p x = false) -> p y = true ->
  findIndex p (l1 ++ y :: l2) = Z.of_nat (List.length l1).
Proof.
  intros Hl1 Hy. induction l1 as [|x l1 IH]; simpl.
  - now rewrite Hy.
  - rewrite (Hl1 x (or_introl eq_refl)).
    rewrite IH by (intros z Hz; apply Hl1; now right).
    destruct (Z.eqb_spec (Z.of_nat (List.length l1)) (-1)); lia.
Qed.

Lemma others_differ (l1 l2 : list RequestTab) (t : RequestTab) :
  NoDup (map id (l1 ++ t :: l2)) ->
  forall u, In u (l1 ++ l2) -> (id u =? id t)%string = false.
Proof.
  rewrite map_app. simpl. intros Hnd u Hu.
  apply NoDup_remove_2 in Hnd. apply String.eqb_neq. intros Heq.
  apply Hnd. rewrite <- Heq, <- map_app. now apply in_map.
Qed.

Lemma filter_keep_all {A : Type} (f : A -> bool) (l : list A) :
  (forall x, In x l -> f x = true) -> filter f l = l.
Proof.
  induction l as [|x l IH]; simpl; intros H; [reflexivity|].
  rewrite (H x (or_introl eq_refl)). f_equal. apply IH. intros; apply H; now right.
Qed.

Lemma remaining_unique (l1 l2 : list RequestTab) (t : RequestTab) :
  NoDup (map id (l1 ++ t :: l2)) ->
  filter (fun u => negb (id u =? id t)%string) (l1 ++ t :: l2) = l1 ++ l2.
Proof.
  intros Hnd. pose proof (others_differ l1 l2 t Hnd) as Hd.
  rewrite filter_app. simpl. rewrite String.eqb_refl. simpl.
  rewrite <- filter_app. apply filter_keep_all.
  intros u Hu. now rewrite (Hd u Hu).
Qed.

Lemma closed_index_unique (l1 l2 : list RequestTab) (t : RequestTab) :
  NoDup (map id (l1 ++ t :: l2)) ->
  findIndex (fun u => (id u =? id t)%string) (l1 ++ t :: l2)
  = Z.of_nat (List.length l1).
Proof.
  intros Hnd. apply findIndex_first.
  - intros u Hu. apply (others_differ l1 l2 t Hnd). apply in_or_app. now left.
  - apply String.eqb_refl.
Qed.

Lemma cut_at {A : Type} (l1 l2 : list A) (t : A) :
  firstn (List.length l1) (l1 ++ t :: l2)
  ++ skipn (S (List.length l1)) (l1 ++ t :: l2) = l1 ++ l2.
Proof.
  induction l1 as [|x l1 IH]; simpl; [reflexivity|]. f_equal. exact IH.
Qed.

(** C7. In a tab list of length [n] with unique tab ids whose active tab
    sits at index [i], closing the active tab returns normally, removes
    exactly that tab, and makes the tab at index [min i (n - 2)] of the
    remaining list the active one; when [n = 1] the list becomes empty and
    the active id the empty string (no tab active). *)
Theorem closeTab_active :
  forall (st : State) (i : nat) (t : RequestTab),
    NoDup (map id (openTabs st)) ->
    nth_error (openTabs st) i = Some t ->
    id t = activeTabId st ->
    let n := List.length (openTabs st) in
    exists st',
      closeTab st (activeTabId st) = Some st' /\
      openTabs st' = firstn i (openTabs st) ++ skipn (S i) (openTabs st) /\
      List.length (openTabs st') = (n - 1)%nat /\
      (n = 1%nat -> openTabs st' = [] /\ activeTabId st' = ""%string) /\
      ((1 < n)%nat ->
       exists t', nth_error (openTabs st') (Nat.min i (n - 2)) = Some t' /\
                  activeTabId st' = id t').
Proof.
  intros st i t Hnd Hnth Hact n.
  destruct (nth_error_split _ _ Hnth) as (l1 & l2 & Htabs & Hlen).
  assert (Hrem : filter (fun u => negb (id u =? activeTabId st)%string) (openTabs st)
                 = l1 ++ l2)
    by (rewrite <- Hact, Htabs; apply remaining_unique; now rewrite <- Htabs).
  assert (Hidx : findIndex (fun u => (id u =? activeTabId st)%string) (openTabs st)
                 = Z.of_nat i)
    by (rewrite <- Hact, Htabs, <- Hlen; apply closed_index_unique;
        now rewrite <- Htabs).
  assert (Hcut : firstn i (openTabs st) ++ skipn (S i) (openTabs st) = l1 ++ l2).
  { rewrite Htabs, <- Hlen. apply cut_at. }
  assert (Hn : n = S (List.length (l1 ++ l2))).
  { unfold n. rewrite Htabs, !length_app. simpl. lia. }
  unfold closeTab, closeTabFrom. rewrite String.eqb_refl, Hrem, Hidx.
  destruct (Z.ltb_spec 0 (Z.of_nat (List.length (l1 ++ l2)))) as [Hpos|Hzero].
  - set (k := Z.min (Z.of_nat i) (Z.of_nat (List.length (l1 ++ l2)) - 1)).
    assert (Hk : Z.to_nat k = Nat.min i (n - 2)) by (unfold k; lia).
    destruct (Z.ltb_spec k 0) as [Hneg|_]; [unfold k in Hneg; lia|].
    destruct (nth_error (l1 ++ l2) (Z.to_nat k)) as [newActive|] eqn:Hnew.
    + eexists. split; [reflexivity|]. cbn [openTabs activeTabId].
      split; [now rewrite Hcut|]. split; [lia|]. split; [lia|].
      intros _. exists newActive. now rewrite <- Hk.
    + exfalso. apply nth_error_None in Hnew. lia.
  - eexists. split; [reflexivity|]. cbn [openTabs activeTabId].
    split; [now rewrite Hcut|]. split; [lia|].
    assert (Hnil : l1 ++ l2 = [])
      by (destruct (l1 ++ l2); [reflexivity|simpl in Hzero; lia]).
    split; [now rewrite Hnil|]. intros Hgt. rewrite Hnil in Hn. simpl in Hn. lia.
Qed.

Lemma closeTab_active_witness :
  let st := newRequest (newRequest initial None) None in
  exists st',
    closeTab st (activeTabId st) = Some st' /\
    openTabs st' = firstn 2 (openTabs st) ++ skipn 3 (openTabs st) /\
    List.length (openTabs st') = 2%nat /\
    (List.length (openTabs st) = 1%nat ->
     openTabs st' = [] /\ activeTabId st' = ""%string) /\
    ((1 < List.length (openTabs st))%nat ->
     exists t', nth_error (openTabs st') 1 = Some t' /\ activeTabId st' = id t').
Proof.
  intros st.
  refine (closeTab_active st 2
            (mkRequestTab "tab-2" None newRequestName "GET" "" [emptyParam]
                          [emptyParam] "" None None true) _ _ _).
  - vm_compute. repeat constructor; simpl; intuition discriminate.
  - reflexivity.
  - reflexivity.
Defined.

(** C10. Closing a tab other than the active one returns normally, leaves
    [activeTabId] as it was and keeps, in order, exactly the tabs whose id
    differs from the closed one; with unique tab ids that is the list
    without the one closed tab. *)
Theorem closeTab_inactive :
  forall (st : State) (tabId : string),
    tabId <> activeTabId st ->
    exists st',
      closeTab st tabId = Some st' /\
      activeTabId st' = activeTabId st /\
      openTabs st' = filter (fun t => negb (id t =? tabId)%string) (openTabs st) /\
      (forall t, In t (openTabs st') <-> In t (openTabs st) /\ id t <> tabId) /\
      (forall l1 t l2,
          NoDup (map id (openTabs st)) ->
          openTabs st = l1 ++ t :: l2 -> id t = tabId ->
          openTabs st' = l1 ++ l2).
Proof.
  intros st tabId Hne. unfold closeTab, closeTabFrom.
  destruct (String.eqb_spec (activeTabId st) tabId) as [Heq|_]; [congruence|].
  eexists. split; [reflexivity|]. simpl.
  split; [reflexivity|]. split; [reflexivity|]. split.
  - intros t. rewrite filter_In, negb_true_iff, String.eqb_neq. reflexivity.
  - intros l1 t l2 Hnd Htabs <-. rewrite Htabs in *. now apply remaining_unique.
Qed.

Lemma closeTab_inactive_witness :
  let st := newRequest initial None in
  exists st',
    closeTab st "tab-0" = Some st' /\
    activeTabId st' = activeTabId st /\
    openTabs st' = filter (fun t => negb (id t =? "tab-0")%string) (openTabs st) /\
    (forall t, In t (openTabs st') <-> In t (openTabs st) /\ id t <> "tab-0"%string) /\
    (forall l1 t l2,
        NoDup (map id (openTabs st)) ->
        openTabs st = l1 ++ t :: l2 -> id t = "tab-0"%string ->
        openTabs st' = l1 ++ l2).
Proof.
  intros st. apply (closeTab_inactive st "tab-0"). vm_compute. discriminate.
Defined.

Lemma tabIdOf_inj (j k : nat) : tabIdOf j = tabIdOf k -> j = k.
Proof.
  unfold tabIdOf. intros H. simpl in H. injection H as H.
  apply Unsigned.to_uint_inj.
  pose proof (NilEmpty.usu (Nat.to_uint j)) as Hj.
  rewrite H, NilEmpty.usu in Hj. congruence.
Qed.

Lemma unique_by_id (l : list RequestTab) (t u : RequestTab) :
  NoDup (map id l) -> In t l -> In u l -> id t = id u -> t = u.
Proof.
  induction l as [|x l IH]; simpl; [tauto|].
  intros Hnd Ht Hu Heq. inversion Hnd as [|? ? Hx Hnd']; subst.
  destruct Ht as [<-|Ht], Hu as [<-|Hu]; auto.
  - exfalso. apply Hx. rewrite Heq. now apply in_map.
  - exfalso. apply Hx. rewrite <- Heq. now apply in_map.
Qed.

Lemma linkedIds_via_map (l : list RequestTab) :
  linkedIds l
  = flat_map (fun o : option Z => match o with Some r => [r] | None => [] end)
             (map requestId l).
Proof.
  unfold linkedIds. induction l as [|x l IH]; simpl; [reflexivity|].
  now rewrite IH.
Qed.

Lemma linkedIds_In (l : list RequestTab) (r : Z) :
  In r (linkedIds l) <-> exists t, In t l /\ requestId t = Some r.
Proof.
  unfold linkedIds. rewrite in_flat_map. split; intros (t & Ht & Hr); exists t.
  - split; [assumption|]. destruct (requestId t); simpl in Hr; [|tauto].
    destruct Hr as [->|[]]. reflexivity.
  - split; [assumption|]. rewrite Hr. now left.
Qed.

Lemma linkedTo_spec (r : Z) (t : RequestTab) :
  linkedTo r t = true <-> requestId t = Some r.
Proof.
  unfold linkedTo. destruct (requestId t) as [q|].
  - rewrite Z.eqb_eq. split; congruence.
  - split; discriminate.
Qed.

Lemma linkedIds_filter_NoDup (f : RequestTab -> bool) (l : list RequestTab) :
  NoDup (linkedIds l) -> NoDup (linkedIds (filter f l)).
Proof.
  induction l as [|x l IH]; simpl; [auto|]. intros Hnd.
  assert (Hl : NoDup (linkedIds l)) by (now apply NoDup_app_remove_l in Hnd).
  destruct (f x); [|auto]. simpl.
  destruct (requestId x) as [r|]; simpl in *; [|auto].
  inversion Hnd as [|? ? Hr _]; subst. constructor; [|auto].
  intros Hin. apply Hr. apply linkedIds_In in Hin. destruct Hin as (t & Ht & Hq).
  apply linkedIds_In. exists t. split; [|assumption].
  now apply filter_In in Ht.
Qed.

Lemma at_most_one_linked (l : list RequestTab) (r : Z) :
  NoDup (linkedIds l) -> (List.length (filter (linkedTo r) l) <= 1)%nat.
Proof.
  induction l as [|x l IH]; simpl; [lia|]. intros Hnd.
  assert (Hl : NoDup (linkedIds l)) by (now apply NoDup_app_remove_l in Hnd).
  destruct (linkedTo r x) eqn:Hx; [|auto].
  apply linkedTo_spec in Hx. rewrite Hx in Hnd. simpl in Hnd.
  inversion Hnd as [|? ? Hr _]; subst.
  assert (Hnone : filter (linkedTo r) l = []).
  { destruct (filter (linkedTo r) l) as [|t rest] eqn:Hf; [reflexivity|].
    exfalso. apply Hr, linkedIds_In. exists t.
    assert (Ht : In t (filter (linkedTo r) l)) by (rewrite Hf; now left).
    apply filter_In in Ht. destruct Ht as [Ht Hlt].
    split; [assumption|]. now apply linkedTo_spec. }
  rewrite Hnone. simpl. lia.
Qed.

Lemma onActive_ids (a : string) (g : RequestTab -> RequestTab) (l : list RequestTab) :
  (forall t, id (g t) = id t) -> map id (onActive a g l) = map id l.
Proof.
  intros Hg. unfold onActive. rewrite map_map. apply map_ext.
  intros t. destruct (id t =? a)%string; auto.
Qed.

Lemma onActive_links (a : string) (g : RequestTab -> RequestTab) (l : list RequestTab) :
  (forall t, In t l -> id t = a -> requestId (g t) = requestId t) ->
  map requestId (onActive a g l) = map requestId l.
Proof.
  intros Hg. unfold onActive. rewrite map_map. apply map_ext_in.
  intros t Ht. destruct (String.eqb_spec (id t) a); auto.
Qed.

Lemma onActive_bind (a : string) (g : RequestTab -> RequestTab) (c : Z)
      (l : list RequestTab) :
  (forall t, requestId (g t) = Some c) ->
  NoDup (map id l) -> NoDup (linkedIds l) -> ~ In c (linkedIds l) ->
  NoDup (linkedIds (onActive a g l)).
Proof.
  intros Hg. induction l as [|x l IH]; simpl; [auto|]. intros Hids Hnd Hc.
  inversion Hids as [|? ? Hx Hids']; subst.
  assert (Hl : NoDup (linkedIds l)) by (now apply NoDup_app_remove_l in Hnd).
  assert (Hcl : ~ In c (linkedIds l)) by (intros H; apply Hc, in_or_app; now right).
  destruct (String.eqb_spec (id x) a) as [Hxa|Hxa].
  - assert (Hsame : onActive a g l = l).
    { unfold onActive. rewrite <- (map_id l) at 2. apply map_ext_in.
      intros t Ht. destruct (String.eqb_spec (id t) a) as [Hta|]; [|reflexivity].
      exfalso. apply Hx. rewrite Hxa, <- Hta. now apply in_map. }
    fold (onActive a g l). rewrite Hsame, Hg. simpl. now constructor.
  - fold (onActive a g l).
    assert (Hsub : forall r, In r (linkedIds (onActive a g l)) ->
                             r = c \/ In r (linkedIds l)).
    { intros r Hr. apply linkedIds_In in Hr. destruct Hr as (t & Ht & Hq).
      unfold onActive in Ht. apply in_map_iff in Ht. destruct Ht as (u & <- & Hu).
      destruct (id u =? a)%string.
      - left. rewrite Hg in Hq. congruence.
      - right. apply linkedIds_In. eauto. }
    destruct (requestId x) as [r|] eqn:Hrx; simpl in *; [|auto].
    inversion Hnd as [|? ? Hr _]; subst.
    constructor; [|auto].
    intros Hin. destruct (Hsub r Hin) as [->|Hin']; [|contradiction].
    apply Hc. now left.
Qed.

Lemma Inv_transfer (st st' : State) :
  map id (openTabs st') = map id (openTabs st) ->
  tabCounter st' = tabCounter st ->
  Inv st -> Inv st'.
Proof.
  intros Hid Hc [H1 H2]. constructor.
  - now rewrite Hid.
  - rewrite Hid, Hc. exact H2.
Qed.

Lemma Linked_transfer (st st' : State) :
  map requestId (openTabs st') = map requestId (openTabs st) ->
  Linked st -> Linked st'.
Proof.
  unfold Linked. intros Hreq H. now rewrite linkedIds_via_map, Hreq, <- linkedIds_via_map.
Qed.

Lemma Inv_filter (st : State) (f : RequestTab -> bool) (a : string) :
  Inv st -> Inv (mkState (filter f (openTabs st)) a (tabCounter st)).
Proof.
  intros [H1 H2]. constructor; simpl.
  - clear H2. induction (openTabs st) as [|x l IH]; simpl; [constructor|].
    inversion H1 as [|? ? Hx Hl]; subst.
    destruct (f x); simpl; [|auto]. constructor; [|auto].
    intros Hin. apply Hx. apply in_map_iff in Hin. destruct Hin as (t & Ht & Hin).
    rewrite <- Ht. apply in_map. now apply filter_In in Hin.
  - intros i Hi. apply H2. apply in_map_iff in Hi. destruct Hi as (t & Ht & Hin).
    rewrite <- Ht. apply in_map. now apply filter_In in Hin.
Qed.

Lemma Inv_append (st : State) (newTab : RequestTab) :
  Inv st ->
  id newTab = tabIdOf (tabCounter st) ->
  Inv (mkState (openTabs st ++ [newTab]) (id newTab) (S (tabCounter st))).
Proof.
  intros [H1 H2] Hid. constructor; simpl.
  - rewrite map_app. simpl. apply NoDup_app; [assumption|repeat constructor; auto|].
    intros i Hi [<-|[]]. destruct (H2 _ Hi) as (k & Hk & Heq).
    rewrite Hid in Heq. apply tabIdOf_inj in Heq. lia.
  - intros i Hi. rewrite map_app in Hi. apply in_app_or in Hi.
    destruct Hi as [Hi|[<-|[]]].
    + destruct (H2 _ Hi) as (k & Hk & Heq). exists k. split; [lia|assumption].
    + exists (tabCounter st). split; [lia|assumption].
Qed.

Lemma Linked_append (st : State) (newTab : RequestTab) (a : string) (c : nat) :
  Linked st ->
  (forall r, requestId newTab = Some r -> ~ In r (linkedIds (openTabs st))) ->
  Linked (mkState (openTabs st ++ [newTab]) a c).
Proof.
  unfold Linked. intros H3 Hfresh. simpl.
  unfold linkedIds. rewrite flat_map_app. simpl. rewrite app_nil_r.
  destruct (requestId newTab) as [r|] eqn:Hr.
  - apply NoDup_app; [assumption|repeat constructor; auto|].
    intros q Hq [<-|[]]. exact (Hfresh r eq_refl Hq).
  - now rewrite app_nil_r.
Qed.

Lemma find_active_unique (st : State) (t : RequestTab) :
  NoDup (map id (openTabs st)) -> In t (openTabs st) -> id t = activeTabId st ->
  currentTab st = Some t.
Proof.
  intros Hnd Hin Hid. unfold currentTab.
  destruct (find _ (openTabs st)) as [u|] eqn:Hf.
  - apply find_some in Hf. destruct Hf as [Hu Heq]. apply String.eqb_eq in Heq.
    f_equal. apply (unique_by_id (openTabs st)); congruence.
  - pose proof (find_none _ _ Hf t Hin) as Hn. simpl in Hn.
    rewrite Hid, String.eqb_refl in Hn. discriminate.
Qed.

Lemma currentRequest_id (st : State) (t : RequestTab) :
  NoDup (map id (openTabs st)) -> In t (openTabs st) -> id t = activeTabId st ->
  cr_id (currentRequest st) = requestId t.
Proof.
  intros Hnd Hin Hid. unfold currentRequest.
  now rewrite (find_active_unique st t Hnd Hin Hid).
Qed.

Lemma setCurrentRequestFrom_tabs (a : string) (st : State) (req : CurrentRequest) :
  openTabs (setCurrentRequestFrom a st req)
  = onActive a
             (fun t => mkRequestTab (id t) (cr_id req) (cr_name req) (cr_method req)
                                    (cr_url req) (cr_headers req) (cr_queryParams req)
                                    (cr_body req) (cr_folder_id req) (response t) true)
             (openTabs st).
Proof. reflexivity. Qed.

Lemma setCurrentRequest_tabs (st : State) (req : CurrentRequest) :
  openTabs (setCurrentRequest st req)
  = onActive (activeTabId st)
             (fun t => mkRequestTab (id t) (cr_id req) (cr_name req) (cr_method req)
                                    (cr_url req) (cr_headers req) (cr_queryParams req)
                                    (cr_body req) (cr_folder_id req) (response t) true)
             (openTabs st).
Proof. reflexivity. Qed.

Lemma setResponseFrom_tabs (a : string) (st : State) (resp : option ExecuteResponse) :
  openTabs (setResponseFrom a st resp)
  = onActive a
             (fun t => mkRequestTab (id t) (requestId t) (name t) (method t) (url t)
                                    (headers t) (queryParams t) (body t) (folder_id t)
                                    resp (dirty t))
             (openTabs st).
Proof. reflexivity. Qed.

Lemma applyEdit_id (e : FieldEdit) (c : CurrentRequest) :
  cr_id (applyEdit e c) = cr_id c.
Proof. destruct e; reflexivity. Qed.

Lemma Linked_setCurrentRequest (st : State) (req : CurrentRequest) :
  cr_id req = cr_id (currentRequest st) ->
  Inv st -> Linked st -> Linked (setCurrentRequest st req).
Proof.
  intros Hreq HI. apply Linked_transfer.
  apply (onActive_links (activeTabId st)). intros t Hin Hid. simpl.
  rewrite Hreq. apply currentRequest_id; [apply HI|assumption..].
Qed.

Lemma closeTabFrom_tabs (a : string) (st st' : State) (tabId : string) :
  closeTabFrom a st tabId = Some st' ->
  openTabs st' = filter (fun t => negb (id t =? tabId)%string) (openTabs st)
  /\ tabCounter st' = tabCounter st.
Proof.
  unfold closeTabFrom. intros Hc.
  destruct (a =? tabId)%string;
    [destruct (0 <? _);
     [destruct (if _ <? 0 then None else nth_error _ _); [|discriminate]|]|];
    injection Hc as <-; split; reflexivity.
Qed.

Lemma Inv_closeTabFrom (a : string) (st st' : State) (tabId : string) :
  closeTabFrom a st tabId = Some st' -> Inv st -> Inv st'.
Proof.
  intros Hc HI. destruct (closeTabFrom_tabs a st st' tabId Hc) as [Ht Hn].
  pose proof (Inv_filter st (fun t => negb (id t =? tabId)%string) "" HI) as [H1 H2].
  simpl in H1, H2. constructor; rewrite Ht; [assumption|]. now rewrite Hn.
Qed.

Lemma Linked_closeTabFrom (a : string) (st st' : State) (tabId : string) :
  closeTabFrom a st tabId = Some st' -> Linked st -> Linked st'.
Proof.
  intros Hc HL. destruct (closeTabFrom_tabs a st st' tabId Hc) as [Ht _].
  unfold Linked. rewrite Ht. now apply linkedIds_filter_NoDup.
Qed.

(** The tab ids after the rest of [saveRequest] has run. *)
Lemma saveResume_ids (a : string) (cr : CurrentRequest) (nameOverride : option string)
      (answer : Answer Z) (st : State) :
  map id (openTabs (save_state (saveResume a cr nameOverride answer st)))
  = map id (openTabs st)
  /\ tabCounter (save_state (saveResume a cr nameOverride answer st)) = tabCounter st
  /\ activeTabId (save_state (saveResume a cr nameOverride answer st)) = activeTabId st.
Proof.
  unfold saveResume. destruct answer as [createdId|message]; [|repeat split].
  cbn [save_state]. destruct (truthyId (cr_id cr)); cbn [withTabs openTabs tabCounter activeTabId].
  - split; [|split; reflexivity]. apply (onActive_ids a). reflexivity.
  - split; [|split; reflexivity].
    etransitivity; [apply (onActive_ids a); reflexivity|].
    rewrite setCurrentRequestFrom_tabs. apply onActive_ids. reflexivity.
Qed.

Lemma Linked_saveResume (a : string) (cr : CurrentRequest)
      (nameOverride : option string) (answer : Answer Z) (st : State) :
  (forall createdId,
      truthyId (cr_id cr) = false -> answer = resolved createdId ->
      freshId st createdId) ->
  Inv st -> Linked st ->
  Linked (save_state (saveResume a cr nameOverride answer st)).
Proof.
  intros Hfresh HI HL. unfold saveResume.
  destruct answer as [createdId|message]; [|assumption].
  cbn [save_state]. destruct (truthyId (cr_id cr)) eqn:Hid.
  - revert HL. apply Linked_transfer. apply (onActive_links a). reflexivity.
  - match goal with
    | |- Linked (withTabs ?s1 _) => set (st1 := s1)
    end.
    assert (H1 : Linked st1).
    { unfold Linked, st1. rewrite setCurrentRequestFrom_tabs.
      apply (onActive_bind a _ createdId); auto; [apply HI|].
      intros Hin. apply linkedIds_In in Hin. destruct Hin as (t & Ht & Hq).
      exact (Hfresh createdId eq_refl eq_refl t Ht Hq). }
    revert H1. apply Linked_transfer. apply (onActive_links a). reflexivity.
Qed.

Lemma Inv_initial : Inv initial.
Proof.
  constructor; simpl.
  - repeat constructor. simpl. tauto.
  - intros i [<-|[]]. exists 0%nat. split; [lia|reflexivity].
Qed.

Lemma existing_none_fresh (st : State) (req : Request) :
  existing st req = None -> ~ In (r_id req) (linkedIds (openTabs st)).
Proof.
  intros Hf Hin. apply linkedIds_In in Hin. destruct Hin as (t & Ht & Hq).
  pose proof (find_none _ _ Hf t Ht) as Hn. apply linkedTo_spec in Hq. congruence.
Qed.

(** Tab ids stay unique whatever the server answers and whatever the
    continuations captured. *)
Lemma Inv_step (createdOk : State -> Z -> Prop) (closureOk : State -> string -> Prop)
      (st st' : State) :
  stepWith createdOk closureOk st st' -> Inv st -> Inv st'.
Proof.
  intros Hstep HI. destruct Hstep.
  - unfold loadRequest. destruct (existing st req) as [tab|] eqn:He.
    + apply Inv_transfer with st; auto.
    + simpl. exact (Inv_append st (mkRequestTab _ _ _ _ _ _ _ _ _ _ _) HI eq_refl).
  - unfold newRequest. simpl.
    exact (Inv_append st (mkRequestTab _ _ _ _ _ _ _ _ _ _ _) HI eq_refl).
  - unfold loadFromHistory. simpl.
    exact (Inv_append st (mkRequestTab _ _ _ _ _ _ _ _ _ _ _) HI eq_refl).
  - apply Inv_transfer with st; [|reflexivity|assumption].
    apply (onActive_ids (activeTabId st)). reflexivity.
  - apply Inv_transfer with st; [|reflexivity|assumption].
    apply (onActive_ids (activeTabId st)). reflexivity.
  - apply Inv_transfer with st; [|reflexivity|assumption].
    apply (onActive_ids a). reflexivity.
  - apply Inv_transfer with st; auto.
  - eapply Inv_closeTabFrom; eassumption.
  - eapply Inv_closeTabFrom; eassumption.
  - unfold closeOtherTabs.
    destruct (filter _ (openTabs st)) as [|x keep] eqn:Hk; [assumption|].
    rewrite <- Hk. now apply Inv_filter.
  - constructor; simpl; [constructor|tauto].
  - destruct (saveResume_ids a cr nameOverride answer st) as (Hids & Hc & _).
    now apply Inv_transfer with st.
Qed.

Lemma reachableWith_Inv (createdOk : State -> Z -> Prop)
      (closureOk : State -> string -> Prop) (st : State) :
  reachableWith createdOk closureOk st -> Inv st.
Proof.
  induction 1 as [|st st' _ IH Hstep]; [apply Inv_initial|].
  exact (Inv_step _ _ st st' Hstep IH).
Qed.

Lemma reachable_Inv (st : State) : reachable st -> Inv st.
Proof. apply reachableWith_Inv. Qed.

(** No two tabs come to be linked to the same request as long as the
    server answers a create with an id no open tab is linked to. *)
Lemma Linked_step (closureOk : State -> string -> Prop) (st st' : State) :
  stepWith freshId closureOk st st' -> Inv st -> Linked st -> Linked st'.
Proof.
  intros Hstep HI HL. destruct Hstep.
  - unfold loadRequest. destruct (existing st req) as [tab|] eqn:He.
    + exact HL.
    + simpl. apply (Linked_append st (mkRequestTab _ _ _ _ _ _ _ _ _ _ _)); [exact HL|].
      simpl. intros r Hr. injection Hr as <-. now apply existing_none_fresh.
  - unfold newRequest. simpl.
    apply (Linked_append st (mkRequestTab _ _ _ _ _ _ _ _ _ _ _)); [exact HL|].
    simpl. discriminate.
  - unfold loadFromHistory. simpl.
    apply (Linked_append st (mkRequestTab _ _ _ _ _ _ _ _ _ _ _)); [exact HL|].
    simpl. discriminate.
  - unfold editField. apply Linked_setCurrentRequest; [apply applyEdit_id|assumption..].
  - revert HL. apply Linked_transfer.
    apply (onActive_links (activeTabId st)). reflexivity.
  - revert HL. apply Linked_transfer. apply (onActive_links a). reflexivity.
  - exact HL.
  - eapply Linked_closeTabFrom; eassumption.
  - eapply Linked_closeTabFrom; eassumption.
  - unfold closeOtherTabs.
    destruct (filter _ (openTabs st)) as [|x keep] eqn:Hk; [assumption|].
    rewrite <- Hk. unfold Linked. simpl. now apply linkedIds_filter_NoDup.
  - constructor.
  - now apply Linked_saveResume.
Qed.

Lemma reachableWith_Linked (closureOk : State -> string -> Prop) (st : State) :
  reachableWith freshId closureOk st -> Linked st.
Proof.
  induction 1 as [|st st' Hr IH Hstep]; [constructor|].
  exact (Linked_step _ st st' Hstep (reachableWith_Inv _ _ st Hr) IH).
Qed.

Lemma find_app_miss {A : Type} (f : A -> bool) (l1 l2 : list A) :
  find f l1 = None -> find f (l1 ++ l2) = find f l2.
Proof.
  induction l1 as [|x l1 IH]; simpl; [reflexivity|].
  destruct (f x); [discriminate|exact IH].
Qed.

Lemma singleton_of_member {A : Type} (l : list A) (x : A) :
  (List.length l <= 1)%nat -> In x l -> l = [x].
Proof.
  destruct l as [|y [|z l]]; simpl; intros Hlen Hin.
  - tauto.
  - destruct Hin as [->|[]]. reflexivity.
  - lia.
Qed.

Lemma loadRequest_links (st : State) (req : Request) :
  exists tab, existing (loadRequest st req) req = Some tab.
Proof.
  unfold loadRequest. destruct (existing st req) as [tab|] eqn:He.
  - exists tab. exact He.
  - eexists. unfold existing in *. simpl.
    rewrite (find_app_miss _ _ _ He). simpl.
    unfold linkedTo. simpl. rewrite Z.eqb_refl. reflexivity.
Qed.

(** C6 (as amended). As long as the server answers every create with an
    id no open tab is linked to, in every session state the gestures and
    the continuations of the awaited calls can reach at most one tab is
    linked to the request [req], and loading the same request a second time
    adds nothing: exactly one tab is linked to it, and it is the active one.
    In any state at all, [loadRequest req] with a tab linked to [req] open
    leaves the tab list as it is and makes the first such tab the active
    one. *)
Theorem loadRequest_no_duplicate :
  forall (st : State) (req : Request),
    reachableWith freshId anyClosure st ->
    (List.length (tabsOfRequest st (r_id req)) <= 1)%nat /\
    (forall (s : State) (tab : RequestTab),
        existing s req = Some tab ->
        In tab (openTabs s) /\ requestId tab = Some (r_id req) /\
        openTabs (loadRequest s req) = openTabs s /\
        activeTabId (loadRequest s req) = id tab) /\
    (let st1 := loadRequest st req in
     let st2 := loadRequest st1 req in
     openTabs st2 = openTabs st1 /\
     exists tab, tabsOfRequest st2 (r_id req) = [tab] /\ activeTabId st2 = id tab).
Proof.
  intros st req Hreach.
  assert (Hone : forall s, reachableWith freshId anyClosure s ->
                           (List.length (tabsOfRequest s (r_id req)) <= 1)%nat).
  { intros s Hs. apply at_most_one_linked.
    exact (reachableWith_Linked anyClosure s Hs). }
  assert (Hopen : forall s tab,
             existing s req = Some tab ->
             In tab (openTabs s) /\ requestId tab = Some (r_id req) /\
             openTabs (loadRequest s req) = openTabs s /\
             activeTabId (loadRequest s req) = id tab).
  { intros s tab He. unfold loadRequest. rewrite He.
    apply find_some in He. destruct He as [Hin Hl]. apply linkedTo_spec in Hl.
    repeat split; assumption. }
  split; [exact (Hone st Hreach)|]. split; [exact Hopen|].
  intros st1 st2.
  assert (Hreach1 : reachableWith freshId anyClosure st1)
    by (apply reachable_step with st; [assumption|constructor]).
  destruct (loadRequest_links st req) as [tab He]. fold st1 in He.
  destruct (Hopen st1 tab He) as (Hin & Hl & Htabs & Hact). fold st2 in Htabs, Hact.
  split; [exact Htabs|]. exists tab. split; [|exact Hact].
  unfold tabsOfRequest. rewrite Htabs. apply singleton_of_member.
  - exact (Hone st1 Hreach1).
  - apply filter_In. split; [assumption|]. now apply linkedTo_spec.
Qed.

Lemma loadRequest_no_duplicate_witness :
  let st := loadRequest initial (Samples.req 20) in
  let req := Samples.req 20 in
  (List.length (tabsOfRequest st (r_id req)) <= 1)%nat /\
  (forall (s : State) (tab : RequestTab),
      existing s req = Some tab ->
      In tab (openTabs s) /\ requestId tab = Some (r_id req) /\
      openTabs (loadRequest s req) = openTabs s /\
      activeTabId (loadRequest s req) = id tab) /\
  (let st1 := loadRequest st req in
   let st2 := loadRequest st1 req in
   openTabs st2 = openTabs st1 /\
   exists tab, tabsOfRequest st2 (r_id req) = [tab] /\ activeTabId st2 = id tab).
Proof.
  intros st req. apply (loadRequest_no_duplicate st req).
  apply reachable_step with initial.
  - apply reachable_initial.
  - apply step_loadRequest.
Defined.

(** C6, as stated, fails: request 20 is open in a tab; a new draft is
    saved, and the server answers the create with the id 20 (the client
    never checks the id it receives).  Both tabs are then linked to request
    20, in a state the gestures reach. *)
Lemma loadRequest_duplicate_after_save :
  let st0 := loadRequest initial (Samples.req 20) in
  let st1 := newRequest st0 None in
  let st2 := save_state (saveRequest st1 None (resolved 20)) in
  reachable st2 /\
  map id (tabsOfRequest st2 20) = ["tab-1"; "tab-2"]%string /\
  List.length (tabsOfRequest st2 20) = 2%nat.
Proof.
  intros st0 st1 st2. split; [|split; reflexivity].
  assert (H1 : reachable st1).
  { apply reachable_step with st0; [|apply step_newRequest].
    apply reachable_step with initial; [apply reachable_initial|].
    apply step_loadRequest. }
  apply reachable_step with st1; [exact H1|].
  exact (step_saveResume anyId anyClosure (activeTabId st1) (currentRequest st1)
                         None (resolved 20) st1 I (fun _ _ _ => I)).
Qed.

(** C9. The tab [newRequest] appends has [dirty = true]; the tab
    [loadRequest] appends for a request that has no tab yet has
    [dirty = false]; storing a response leaves every dirty flag as it is,
    and a field edit made on the freshly loaded tab sets its flag to
    [true]. *)
Theorem dirty_on_creation :
  forall st : State,
    (forall folderId,
        exists t,
          openTabs (newRequest st folderId) = openTabs st ++ [t] /\
          id t = tabIdOf (tabCounter st) /\
          activeTabId (newRequest st folderId) = id t /\
          requestId t = None /\ dirty t = true) /\
    (forall req,
        existing st req = None ->
        exists t,
          openTabs (loadRequest st req) = openTabs st ++ [t] /\
          id t = tabIdOf (tabCounter st) /\
          activeTabId (loadRequest st req) = id t /\
          requestId t = Some (r_id req) /\ dirty t = false /\
          (forall resp,
              map dirty (openTabs (setResponse (loadRequest st req) resp))
              = map dirty (openTabs (loadRequest st req))) /\
          (forall e,
              exists tabs' t',
                openTabs (editField (loadRequest st req) e) = tabs' ++ [t'] /\
                id t' = id t /\ dirty t' = true)).
Proof.
  intros st. split.
  - intros folderId. eexists. unfold newRequest. simpl.
    split; [reflexivity|]. repeat split.
  - intros req He. unfold loadRequest. rewrite He. simpl.
    eexists. split; [reflexivity|]. simpl.
    do 4 (split; [reflexivity|]). split.
    + intros resp. unfold setResponse. simpl. rewrite map_map.
      apply map_ext. intros t. now destruct (id t =? _)%string.
    + intros e. rewrite map_app. cbn [map id]. rewrite String.eqb_refl.
      eexists. eexists. split; [reflexivity|]. split; reflexivity.
Qed.

Lemma dirty_on_creation_witness :
  let st := initial in
  let req := Samples.req 20 in
  exists t,
    openTabs (loadRequest st req) = openTabs st ++ [t] /\
    id t = tabIdOf (tabCounter st) /\
    activeTabId (loadRequest st req) = id t /\
    requestId t = Some (r_id req) /\ dirty t = false /\
    (forall resp,
        map dirty (openTabs (setResponse (loadRequest st req) resp))
        = map dirty (openTabs (loadRequest st req))) /\
    (forall e,
        exists tabs' t',
          openTabs (editField (loadRequest st req) e) = tabs' ++ [t'] /\
          id t' = id t /\ dirty t' = true).
Proof.
  intros st req. apply (proj2 (dirty_on_creation st) req). reflexivity.
Defined.

End SessionFacts.

(** * Further properties of the code *)

(** ** The reorder engine, for every input *)

Lemma find_skip_prefix {T : Type} (f : T -> bool) (l1 l2 : list T) :
  (forall z, In z l1 -> f z = false) -> find f (l1 ++ l2) = find f l2.
Proof.
  induction l1 as [|z l1 IH]; simpl; intros H; [reflexivity|].
  rewrite (H z (or_introl eq_refl)). apply IH. intros; apply H; now right.
Qed.

Lemma filter_shorter {T : Type} (f : T -> bool) (l : list T) (x : T) :
  In x l -> f x = false -> (List.length (filter f l) < List.length l)%nat.
Proof.
  induction l as [|z l IH]; simpl; [tauto|].
  intros [->|Hin] Hx.
  - rewrite Hx. pose proof (filter_length_le f l). lia.
  - specialize (IH Hin Hx). destruct (f z); simpl; lia.
Qed.

Section ReorderMore.

Context {T : Type}.
Variable id : T -> Z.

(** What [reorderList] returns: its input, or the other items with the
    dragged one put next to the first item that has the reference id. *)
Lemma reorderList_result (S : list T) (a b : Z) (p : GapPosition) :
  reorderList id S a b p = S \/
  exists x y l1 l2,
    find (fun item => id item =? a) S = Some x /\
    id x = a /\ id y = b /\ a <> b /\
    (forall z, In z l1 -> id z <> b) /\
    filter (fun item => negb (id item =? a)) S = l1 ++ y :: l2 /\
    reorderList id S a b p
    = match p with
      | before => l1 ++ x :: y :: l2
      | after => l1 ++ y :: x :: l2
      end.
Proof.
  unfold reorderList.
  destruct (find (fun item => id item =? a) S) as [x|] eqn:Hx; [|now left].
  set (remaining := filter (fun item => negb (id item =? a)) S).
  destruct (Z.eqb_spec (findIndex (fun item => id item =? b) remaining) (-1))
    as [|Hne]; [now left|].
  right.
  destruct (findIndex_split id _ _ Hne) as (l1 & y & l2 & Hsplit & Hy & Hl1 & Hi).
  apply Z.eqb_eq in Hy.
  assert (Hya : id y <> a).
  { assert (Hin : In y remaining) by (rewrite Hsplit; apply in_elt).
    apply filter_In in Hin. destruct Hin as [_ Hin].
    now apply negb_true_iff, Z.eqb_neq in Hin. }
  exists x, y, l1, l2.
  split; [reflexivity|].
  split; [apply find_some in Hx; now apply Z.eqb_eq|].
  split; [assumption|]. split; [congruence|].
  split; [intros z Hz; apply Z.eqb_neq; auto|].
  split; [assumption|].
  rewrite Hi, Hsplit. destruct p.
  - apply splice_insert_at.
  - apply splice_insert_after.
Qed.

End ReorderMore.

(** X1. Reordering is idempotent: applying [reorderList] a second time with
    the same drag id, reference id and position changes nothing more. *)
Theorem reorderList_idempotent :
  forall (T : Type) (id : T -> Z) (S : list T) (a b : Z) (p : GapPosition),
    reorderList id (reorderList id S a b p) a b p = reorderList id S a b p.
Proof.
  intros T id S a b p.
  destruct (reorderList_result id S a b p)
    as [Hsame | (x & y & l1 & l2 & Hx & Hidx & Hidy & Hab & Hl1 & Hrem & Hres)].
  - now rewrite !Hsame.
  - set (keep := fun item : T => negb (id item =? a)) in *.
    assert (Hkeep : filter keep (l1 ++ y :: l2) = l1 ++ y :: l2)
      by (rewrite <- Hrem; apply filter_idem).
    assert (Hl1a : forall z, In z l1 -> (id z =? a) = false).
    { intros z Hz. apply negb_true_iff.
      assert (Hin : In z (filter keep S)) by (rewrite Hrem; apply in_or_app; now left).
      now apply filter_In in Hin. }
    assert (Hya : (id y =? a) = false) by (apply Z.eqb_neq; congruence).
    assert (Hxa : (id x =? a) = true) by now apply Z.eqb_eq.
    assert (Hxk : keep x = false) by (unfold keep; now rewrite Hxa).
    assert (Hfind : find (fun item => id item =? a) (reorderList id S a b p) = Some x).
    { rewrite Hres. destruct p; rewrite find_skip_prefix by assumption; simpl.
      - now rewrite Hxa.
      - now rewrite Hya, Hxa. }
    assert (Hfilter : filter keep (reorderList id S a b p) = l1 ++ y :: l2).
    { rewrite Hres, <- Hkeep. destruct p; rewrite !filter_app; simpl.
      - now rewrite Hxk.
      - destruct (keep y); simpl; now rewrite Hxk. }
    assert (Hidx' : findIndex (fun item => id item =? b) (l1 ++ y :: l2)
                    = Z.of_nat (List.length l1)).
    { apply SessionFacts.findIndex_first.
      - intros z Hz. apply Z.eqb_neq. auto.
      - now apply Z.eqb_eq. }
    unfold reorderList at 1. rewrite Hfind. fold keep. rewrite Hfilter, Hidx'.
    destruct (Z.eqb_spec (Z.of_nat (List.length l1)) (-1)); [lia|].
    rewrite Hres. destruct p.
    + apply splice_insert_at.
    + apply splice_insert_after.
Qed.

(** X2. [reorderList] never invents an item and never returns a longer
    list; when the ids of the input are unique the result is a rearrangement
    of the input, so its ids are unique again. *)
Theorem reorderList_conserves :
  forall (T : Type) (id : T -> Z) (S : list T) (d r : Z) (p : GapPosition),
    (forall x, In x (reorderList id S d r p) -> In x S) /\
    (List.length (reorderList id S d r p) <= List.length S)%nat /\
    (NoDup (map id S) ->
     Permutation S (reorderList id S d r p) /\
     NoDup (map id (reorderList id S d r p))).
Proof.
  intros T id S d r p.
  destruct (reorderList_result id S d r p)
    as [Hsame | (x & y & l1 & l2 & Hx & Hidx & Hidy & Hab & Hl1 & Hrem & Hres)].
  - rewrite Hsame. repeat split; auto.
  - set (keep := fun item : T => negb (id item =? d)) in *.
    assert (HxS : In x S) by now apply find_some in Hx.
    assert (Hperm0 : Permutation (x :: l1 ++ y :: l2) (reorderList id S d r p)).
    { rewrite Hres. destruct p.
      - apply Permutation_middle.
      - change (l1 ++ y :: x :: l2) with (l1 ++ [y] ++ x :: l2).
        change (l1 ++ y :: l2) with (l1 ++ [y] ++ l2).
        rewrite !app_assoc. apply Permutation_middle. }
    split; [|split].
    + intros z Hz. apply (Permutation_in z (Permutation_sym Hperm0)) in Hz.
      destruct Hz as [<-|Hz]; [assumption|].
      rewrite <- Hrem in Hz. now apply filter_In in Hz.
    + rewrite <- (Permutation_length Hperm0). simpl. rewrite <- Hrem.
      apply (filter_shorter keep S x HxS). unfold keep.
      rewrite Hidx, Z.eqb_refl. reflexivity.
    + intros Hnd.
      assert (Hperm : Permutation S (reorderList id S d r p)).
      { rewrite <- Hperm0, <- Hrem. now apply unique_drag_permutation. }
      split; [assumption|].
      apply (Permutation_NoDup (Permutation_map id Hperm) Hnd).
Qed.

Lemma reorderList_conserves_witness :
  let S := [Samples.mkItem 1; Samples.mkItem 2; Samples.mkItem 3] in
  Permutation S (reorderList Samples.item_id S 1 3 after) /\
  NoDup (map Samples.item_id (reorderList Samples.item_id S 1 3 after)).
Proof.
  intros S.
  apply (proj2 (proj2 (reorderList_conserves Samples.Item Samples.item_id S 1 3 after))).
  simpl. repeat constructor; simpl; intuition discriminate.
Defined.

(** ** Lookups in the tree *)

Lemma subfolders_unfold i n p s children requests :
  subfolders (mkFolder i n p s children requests)
  = mkFolder i n p s children requests :: allFolders children.
Proof. reflexivity. Qed.

Lemma findReqIn_unfold (targetId : Z) i n p s children requests :
  findReqIn targetId (mkFolder i n p s children requests)
  = match find (fun r => r_id r =? targetId) requests with
    | Some r => Some r
    | None => findReq targetId children
    end.
Proof.
  simpl. destruct (find _ requests); [reflexivity|].
  induction children as [|c rest IH]; simpl; [reflexivity|].
  destruct (findReqIn targetId c); [reflexivity|exact IH].
Qed.

Lemma findFolderIn_unfold (targetId : Z) i n p s children requests :
  findFolderIn targetId (mkFolder i n p s children requests)
  = if i =? targetId then Some (mkFolder i n p s children requests)
    else findFolder targetId children.
Proof.
  simpl. destruct (i =? targetId); [reflexivity|].
  induction children as [|c rest IH]; simpl; [reflexivity|].
  destruct (findFolderIn targetId c); [reflexivity|exact IH].
Qed.

Lemma existsb_id_present {A : Type} (id : A -> Z) (refId : Z) (l : list A) :
  existsb (fun x => id x =? refId) l = true -> In refId (map id l).
Proof.
  intros H. apply existsb_exists in H. destruct H as (x & Hx & Heq).
  apply Z.eqb_eq in Heq. rewrite <- Heq. now apply in_map.
Qed.

(** A successful search returns the requests of a folder of the subtree,
    and they hold the id. *)
Lemma searchFolderRequests_found (refId : Z) (fld : Folder) (found : list Request) :
  searchFolderRequests refId fld = Some found ->
  In refId (map r_id found) /\
  exists f, In f (subfolders fld) /\ found = f_requests f.
Proof.
  revert found.
  induction fld as [i n p s children requests IH] using Folder_ind'.
  intros found. rewrite searchFolderRequests_unfold, subfolders_unfold.
  destruct (existsb _ requests) eqn:Hex.
  - intros H. injection H as <-. split; [now apply existsb_id_present|].
    eexists. split; [now left|reflexivity].
  - clear Hex. intros H.
    assert (Hlist : In refId (map r_id found) /\
                    exists f, In f (allFolders children) /\ found = f_requests f).
    { induction IH as [|c rest Hc _ IHrest]; simpl in H; [discriminate|].
      destruct (searchFolderRequests refId c) as [g|] eqn:Hg.
      - injection H as <-. destruct (Hc g eq_refl) as (Hin & f & Hf & Heq).
        split; [assumption|]. exists f. split; [|assumption].
        simpl. apply in_or_app. now left.
      - destruct (IHrest H) as (Hin & f & Hf & Heq).
        split; [assumption|]. exists f. split; [|assumption].
        simpl. apply in_or_app. now right. }
    destruct Hlist as (Hin & f & Hf & Heq).
    split; [assumption|]. exists f. split; [now right|assumption].
Qed.

Lemma searchFoldersRequests_found (refId : Z) (flds : list Folder)
      (found : list Request) :
  searchFoldersRequests refId flds = Some found ->
  In refId (map r_id found) /\
  exists f, In f (allFolders flds) /\ found = f_requests f.
Proof.
  induction flds as [|c rest IH]; simpl; [discriminate|].
  destruct (searchFolderRequests refId c) as [g|] eqn:Hg.
  - intros H. injection H as <-.
    destruct (searchFolderRequests_found refId c g Hg) as (Hin & f & Hf & Heq).
    split; [assumption|]. exists f. split; [|assumption].
    apply in_or_app. now left.
  - intros H. destruct (IH H) as (Hin & f & Hf & Heq).
    split; [assumption|]. exists f. split; [|assumption].
    apply in_or_app. now right.
Qed.

(** A failed search means the id is nowhere in the subtree. *)
Lemma searchFolderRequests_none (refId : Z) (fld : Folder) :
  searchFolderRequests refId fld = None -> ~ In refId (folderRequestIds fld).
Proof.
  induction fld as [i n p s children requests IH] using Folder_ind'.
  rewrite searchFolderRequests_unfold, folderRequestIds_unfold.
  destruct (existsb _ requests) eqn:Hex; [discriminate|].
  intros H Hin. apply in_app_or in Hin. destruct Hin as [Hin|Hin].
  - apply in_map_iff in Hin. destruct Hin as (x & Hx & Hin).
    assert (Ht : existsb (fun r => r_id r =? refId) requests = true)
      by (apply existsb_exists; exists x; split; [assumption|now apply Z.eqb_eq]).
    congruence.
  - clear Hex. induction IH as [|c rest Hc _ IHrest]; simpl in *; [tauto|].
    destruct (searchFolderRequests refId c) eqn:Hg; [discriminate|].
    apply in_app_or in Hin. destruct Hin as [Hin|Hin]; [now apply Hc|auto].
Qed.

Lemma searchFoldersRequests_none (refId : Z) (flds : list Folder) :
  searchFoldersRequests refId flds = None -> ~ In refId (foldersRequestIds flds).
Proof.
  induction flds as [|c rest IH]; simpl; [tauto|].
  destruct (searchFolderRequests refId c) eqn:Hg; [discriminate|].
  intros H Hin. apply in_app_or in Hin. destruct Hin as [Hin|Hin].
  - now apply (searchFolderRequests_none refId c).
  - now apply IH.
Qed.

(** X3. [getSiblingRequests] returns the empty list exactly when no request
    of the snapshot has the id; otherwise it returns a group that holds a
    request with that id, and the group is the standalone list or the
    request list of a folder of the tree. *)
Theorem getSiblingRequests_group :
  forall (s : Snapshot) (refId : Z),
    (getSiblingRequests s refId = [] <-> ~ In refId (allRequestIds s)) /\
    (In refId (allRequestIds s) ->
     In refId (map r_id (getSiblingRequests s refId)) /\
     (getSiblingRequests s refId = standaloneRequests s \/
      exists f, In f (allFolders (folders s)) /\
                getSiblingRequests s refId = f_requests f)).
Proof.
  intros s refId.
  assert (Hcases :
            (~ In refId (allRequestIds s) /\ getSiblingRequests s refId = []) \/
            (In refId (allRequestIds s) /\
             In refId (map r_id (getSiblingRequests s refId)) /\
             (getSiblingRequests s refId = standaloneRequests s \/
              exists f, In f (allFolders (folders s)) /\
                        getSiblingRequests s refId = f_requests f))).
  { unfold getSiblingRequests, allRequestIds.
    destruct (existsb _ (standaloneRequests s)) eqn:Hex.
    - right. apply existsb_id_present in Hex.
      split; [apply in_or_app; now left|]. split; [assumption|now left].
    - destruct (searchFoldersRequests refId (folders s)) as [found|] eqn:Hs.
      + right. destruct (searchFoldersRequests_found _ _ _ Hs) as (Hin & f & Hf & Heq).
        split; [|split; [assumption|right; eauto]].
        apply in_or_app. right. intros.
        destruct (in_dec Z.eq_dec refId (foldersRequestIds (folders s))) as [|Hn];
          [assumption|].
        rewrite (searchFoldersRequests_absent _ _ Hn) in Hs. discriminate.
      + left. split; [|reflexivity]. intros Hin. apply in_app_or in Hin.
        destruct Hin as [Hin|Hin].
        * apply in_map_iff in Hin. destruct Hin as (x & Hx & Hin).
          assert (Ht : existsb (fun r => r_id r =? refId) (standaloneRequests s) = true)
            by (apply existsb_exists; exists x; split;
                [assumption|now apply Z.eqb_eq]).
          congruence.
        * now apply (searchFoldersRequests_none refId (folders s)). }
  destruct Hcases as [[Hn He]|(Hin & Hmem & Hgrp)].
  - split; [tauto|contradiction].
  - split; [|auto]. split; [|contradiction].
    intros He. rewrite He in Hmem. destruct Hmem.
Qed.

Lemma getSiblingRequests_group_witness :
  In 10 (map r_id (getSiblingRequests Samples.snapshot 10)) /\
  (getSiblingRequests Samples.snapshot 10 = standaloneRequests Samples.snapshot \/
   exists f, In f (allFolders (folders Samples.snapshot)) /\
             getSiblingRequests Samples.snapshot 10 = f_requests f).
Proof.
  apply (proj2 (getSiblingRequests_group Samples.snapshot 10)).
  vm_compute. tauto.
Defined.

Lemma searchFolderChildren_found (refId : Z) (fld : Folder) (found : list Folder) :
  searchFolderChildren refId fld = Some found ->
  In refId (map f_id found) /\
  exists f, In f (subfolders fld) /\ found = f_children f.
Proof.
  revert found.
  induction fld as [i n p s children requests IH] using Folder_ind'.
  intros found. rewrite searchFolderChildren_unfold, subfolders_unfold.
  destruct (existsb _ children) eqn:Hex.
  - intros H. injection H as <-. split; [now apply existsb_id_present|].
    eexists. split; [now left|reflexivity].
  - clear Hex. intros H.
    assert (Hlist : In refId (map f_id found) /\
                    exists f, In f (allFolders children) /\ found = f_children f).
    { induction IH as [|c rest Hc _ IHrest]; simpl in H; [discriminate|].
      destruct (searchFolderChildren refId c) as [g|] eqn:Hg.
      - injection H as <-. destruct (Hc g eq_refl) as (Hin & f & Hf & Heq).
        split; [assumption|]. exists f. split; [|assumption].
        simpl. apply in_or_app. now left.
      - destruct (IHrest H) as (Hin & f & Hf & Heq).
        split; [assumption|]. exists f. split; [|assumption].
        simpl. apply in_or_app. now right. }
    destruct Hlist as (Hin & f & Hf & Heq).
    split; [assumption|]. exists f. split; [now right|assumption].
Qed.

Lemma searchFoldersChildren_found (refId : Z) (flds : list Folder)
      (found : list Folder) :
  searchFoldersChildren refId flds = Some found ->
  In refId (map f_id found) /\
  exists f, In f (allFolders flds) /\ found = f_children f.
Proof.
  induction flds as [|c rest IH]; simpl; [discriminate|].
  destruct (searchFolderChildren refId c) as [g|] eqn:Hg.
  - intros H. injection H as <-.
    destruct (searchFolderChildren_found refId c g Hg) as (Hin & f & Hf & Heq).
    split; [assumption|]. exists f. split; [|assumption].
    apply in_or_app. now left.
  - intros H. destruct (IH H) as (Hin & f & Hf & Heq).
    split; [assumption|]. exists f. split; [|assumption].
    apply in_or_app. now right.
Qed.

(** X4. [getSiblingFolders] returns the empty list exactly when no folder
    of the snapshot has the id; otherwise it returns a group that holds a
    folder with that id, and the group is the root list or the child list
    of a folder of the tree. *)
Theorem getSiblingFolders_group :
  forall (s : Snapshot) (refId : Z),
    (getSiblingFolders s refId = [] <-> ~ In refId (allFolderIds s)) /\
    (In refId (allFolderIds s) ->
     In refId (map f_id (getSiblingFolders s refId)) /\
     (getSiblingFolders s refId = folders s \/
      exists f, In f (allFolders (folders s)) /\
                getSiblingFolders s refId = f_children f)).
Proof.
  intros s refId.
  assert (Hfound : getSiblingFolders s refId = [] \/
                   (In refId (map f_id (getSiblingFolders s refId)) /\
                    (getSiblingFolders s refId = folders s \/
                     exists f, In f (allFolders (folders s)) /\
                               getSiblingFolders s refId = f_children f))).
  { unfold getSiblingFolders.
    destruct (existsb _ (folders s)) eqn:Hex.
    - right. split; [now apply existsb_id_present|now left].
    - destruct (searchFoldersChildren refId (folders s)) as [found|] eqn:Hs;
        [right|now left].
      destruct (searchFoldersChildren_found _ _ _ Hs) as (Hin & f & Hf & Heq).
      split; [assumption|right; eauto]. }
  assert (Hsound : In refId (map f_id (getSiblingFolders s refId)) ->
                   In refId (allFolderIds s)).
  { intros Hin.
    destruct (in_dec Z.eq_dec refId (allFolderIds s)) as [|Hn]; [assumption|].
    rewrite (getSiblingFolders_absent s refId Hn) in Hin. destruct Hin. }
  assert (Hcomplete : getSiblingFolders s refId = [] -> ~ In refId (allFolderIds s)).
  { unfold getSiblingFolders, allFolderIds.
    destruct (existsb _ (folders s)) eqn:Hex.
    - intros He. apply existsb_id_present in Hex. rewrite He in Hex. destruct Hex.
    - destruct (searchFoldersChildren refId (folders s)) as [found|] eqn:Hs.
      + intros ->. destruct (searchFoldersChildren_found _ _ _ Hs) as ([] & _).
      + intros _. clear Hfound Hsound. revert Hex Hs.
        induction (folders s) as [|c rest IHl]; simpl; [tauto|].
        destruct (Z.eqb_spec (f_id c) refId) as [|Hc]; [discriminate|]. simpl.
        destruct (searchFolderChildren refId c) eqn:Hg; [discriminate|].
        intros Hex Hs Hin. apply in_app_or in Hin. destruct Hin as [Hin|Hin];
          [|exact (IHl Hex Hs Hin)].
        clear IHl Hex Hs rest. revert Hc Hg Hin.
        induction c as [i n p s' children requests IH] using Folder_ind'.
        rewrite searchFolderChildren_unfold, folderIds_unfold. simpl.
        intros Hi Hg [Heq|Hin]; [congruence|].
        destruct (existsb _ children) eqn:Hex; [discriminate|].
        induction IH as [|c rest Hc _ IHrest]; simpl in *; [tauto|].
        destruct (Z.eqb_spec (f_id c) refId) as [|Hne]; [discriminate|].
        simpl in Hex.
        destruct (searchFolderChildren refId c) eqn:Hgc; [discriminate|].
        apply in_app_or in Hin. destruct Hin as [Hin|Hin].
        * exact (Hc Hne eq_refl Hin).
        * exact (IHrest Hex Hg Hin). }
  split; [split; [assumption|apply getSiblingFolders_absent]|].
  intros Hin. destruct Hfound as [He|Hres]; [|assumption].
  exfalso. exact (Hcomplete He Hin).
Qed.

Lemma getSiblingFolders_group_witness :
  In 3 (map f_id (getSiblingFolders Samples.snapshot 3)) /\
  (getSiblingFolders Samples.snapshot 3 = folders Samples.snapshot \/
   exists f, In f (allFolders (folders Samples.snapshot)) /\
             getSiblingFolders Samples.snapshot 3 = f_children f).
Proof.
  apply (proj2 (getSiblingFolders_group Samples.snapshot 3)).
  vm_compute. tauto.
Defined.

Lemma foldersIds_allFolders_one (fld : Folder) :
  folderIds fld = map f_id (subfolders fld).
Proof.
  induction fld as [i n p s children requests IH] using Folder_ind'.
  rewrite folderIds_unfold, subfolders_unfold. simpl. f_equal.
  induction IH as [|c rest Hc _ IHrest]; simpl; [reflexivity|].
  now rewrite map_app, Hc, IHrest.
Qed.

Lemma foldersIds_allFolders (flds : list Folder) :
  foldersIds flds = map f_id (allFolders flds).
Proof.
  induction flds as [|c rest IH]; simpl; [reflexivity|].
  now rewrite map_app, foldersIds_allFolders_one, IH.
Qed.

Lemma findFolderIn_found (targetId : Z) (fld f : Folder) :
  findFolderIn targetId fld = Some f -> f_id f = targetId /\ In f (subfolders fld).
Proof.
  revert f. induction fld as [i n p s children requests IH] using Folder_ind'.
  intros f. rewrite findFolderIn_unfold, subfolders_unfold.
  destruct (Z.eqb_spec i targetId) as [Hi|Hi].
  - intros H. injection H as <-. split; [assumption|now left].
  - intros H. cut (f_id f = targetId /\ In f (allFolders children)).
    { intros [H1 H2]. split; [assumption|now right]. }
    induction IH as [|c rest Hc _ IHrest]; simpl in H; [discriminate|].
    destruct (findFolderIn targetId c) as [g|] eqn:Hg.
    + injection H as <-. destruct (Hc g eq_refl) as [H1 H2].
      split; [assumption|]. simpl. apply in_or_app. now left.
    + destruct (IHrest H) as [H1 H2].
      split; [assumption|]. simpl. apply in_or_app. now right.
Qed.

Lemma findFolderIn_none (targetId : Z) (fld : Folder) :
  findFolderIn targetId fld = None -> ~ In targetId (folderIds fld).
Proof.
  induction fld as [i n p s children requests IH] using Folder_ind'.
  rewrite findFolderIn_unfold, folderIds_unfold.
  destruct (Z.eqb_spec i targetId) as [Hi|Hi]; [discriminate|].
  intros H [Heq|Hin]; [contradiction|].
  induction IH as [|c rest Hc _ IHrest]; simpl in *; [tauto|].
  destruct (findFolderIn targetId c) eqn:Hg; [discriminate|].
  apply in_app_or in Hin. destruct Hin as [Hin|Hin]; [now apply Hc|auto].
Qed.

(** X5. [findFolder], the lookup behind the folder context menu, is sound
    and complete: what it returns is a folder of the tree with the wanted
    id, and it returns nothing exactly when no folder of the tree has that
    id. *)
Theorem findFolder_lookup :
  forall (flds : list Folder) (targetId : Z),
    (forall f, findFolder targetId flds = Some f ->
               f_id f = targetId /\ In f (allFolders flds)) /\
    (findFolder targetId flds = None <-> ~ In targetId (foldersIds flds)).
Proof.
  intros flds targetId.
  assert (Hsound : forall f, findFolder targetId flds = Some f ->
                             f_id f = targetId /\ In f (allFolders flds)).
  { induction flds as [|c rest IH]; simpl; [discriminate|].
    intros f. destruct (findFolderIn targetId c) as [g|] eqn:Hg.
    - intros H. injection H as <-.
      destruct (findFolderIn_found _ _ _ Hg) as [H1 H2].
      split; [assumption|]. apply in_or_app. now left.
    - intros H. destruct (IH f H) as [H1 H2].
      split; [assumption|]. apply in_or_app. now right. }
  split; [exact Hsound|]. split.
  - induction flds as [|c rest IH]; simpl; [tauto|].
    destruct (findFolderIn targetId c) eqn:Hg; [discriminate|].
    intros H Hin. apply in_app_or in Hin. destruct Hin as [Hin|Hin].
    + now apply (findFolderIn_none targetId c).
    + apply IH; [|assumption..].
      intros f Hf. destruct (Hsound f) as [H1 H2]; [simpl; now rewrite Hg|].
      split; [assumption|].
      simpl in H2. apply in_app_or in H2. destruct H2 as [H2|H2]; [|assumption].
      exfalso. apply (findFolderIn_none targetId c Hg).
      rewrite foldersIds_allFolders_one, <- H1. now apply in_map.
  - intros Hn. destruct (findFolder targetId flds) as [f|] eqn:Hf; [|reflexivity].
    exfalso. apply Hn. destruct (Hsound f eq_refl) as [H1 H2].
    rewrite foldersIds_allFolders, <- H1. now apply in_map.
Qed.

Lemma findFolder_lookup_witness :
  f_id Samples.inner = 3 /\ In Samples.inner (allFolders [Samples.outer]).
Proof.
  apply (proj1 (findFolder_lookup [Samples.outer] 3) Samples.inner). reflexivity.
Defined.

Lemma find_existsb_none {A : Type} (p : A -> bool) (l : list A) :
  find p l = None -> existsb p l = false.
Proof.
  induction l as [|x l IH]; simpl; [reflexivity|].
  destruct (p x); [discriminate|exact IH].
Qed.

Lemma find_existsb_some {A : Type} (p : A -> bool) (l : list A) (x : A) :
  find p l = Some x -> existsb p l = true.
Proof.
  intros H. apply find_some in H. apply existsb_exists. eauto.
Qed.

(** [findReqIn] and the sibling search walk a folder in the same order. *)
Lemma findReqIn_agrees (targetId : Z) (fld : Folder) :
  match findReqIn targetId fld with
  | Some q =>
      r_id q = targetId /\
      exists g, searchFolderRequests targetId fld = Some g /\ In q g
  | None => searchFolderRequests targetId fld = None
  end.
Proof.
  induction fld as [i n p s children requests IH] using Folder_ind'.
  rewrite findReqIn_unfold, searchFolderRequests_unfold.
  destruct (find _ requests) as [q|] eqn:Hq.
  - rewrite (find_existsb_some _ _ _ Hq). apply find_some in Hq.
    destruct Hq as [Hin Heq]. apply Z.eqb_eq in Heq. eauto.
  - rewrite (find_existsb_none _ _ Hq). clear Hq.
    induction IH as [|c rest Hc _ IHrest]; simpl; [reflexivity|].
    destruct (findReqIn targetId c) as [q|].
    + destruct Hc as (Heq & g & -> & Hin). eauto.
    + rewrite Hc. exact IHrest.
Qed.

Lemma findReq_agrees (targetId : Z) (flds : list Folder) :
  match findReq targetId flds with
  | Some q =>
      r_id q = targetId /\
      exists g, searchFoldersRequests targetId flds = Some g /\ In q g
  | None => searchFoldersRequests targetId flds = None
  end.
Proof.
  induction flds as [|c rest IH]; simpl; [reflexivity|].
  pose proof (findReqIn_agrees targetId c) as Hc.
  destruct (findReqIn targetId c) as [q|].
  - destruct Hc as (Heq & g & -> & Hin). eauto.
  - rewrite Hc. exact IH.
Qed.

(** X6. The request the context menu finds by id has that id and belongs
    to the sibling group [getSiblingRequests] returns for the same id; the
    menu finds nothing exactly when no request of the snapshot has the
    id. *)
Theorem findRequest_in_siblings :
  forall (s : Snapshot) (targetId : Z),
    (forall q, findRequest s targetId = Some q ->
               r_id q = targetId /\ In q (getSiblingRequests s targetId)) /\
    (findRequest s targetId = None <-> ~ In targetId (allRequestIds s)).
Proof.
  intros s targetId.
  assert (Hsound : forall q, findRequest s targetId = Some q ->
                             r_id q = targetId /\
                             In q (getSiblingRequests s targetId)).
  { unfold findRequest, getSiblingRequests. intros q.
    destruct (find _ (standaloneRequests s)) as [q0|] eqn:Hq.
    - rewrite (find_existsb_some _ _ _ Hq). intros H. injection H as <-.
      apply find_some in Hq. destruct Hq as [Hin Heq]. now apply Z.eqb_eq in Heq.
    - rewrite (find_existsb_none _ _ Hq).
      pose proof (findReq_agrees targetId (folders s)) as Hf.
      destruct (findReq targetId (folders s)) as [q1|]; [|discriminate].
      intros H. injection H as <-. destruct Hf as (Heq & g & -> & Hin). auto. }
  assert (Hnone : findRequest s targetId = None -> getSiblingRequests s targetId = []).
  { unfold findRequest, getSiblingRequests.
    destruct (find _ (standaloneRequests s)) as [q0|] eqn:Hq; [discriminate|].
    rewrite (find_existsb_none _ _ Hq).
    pose proof (findReq_agrees targetId (folders s)) as Hf.
    destruct (findReq targetId (folders s)); [discriminate|]. now rewrite Hf. }
  split; [exact Hsound|]. split.
  - intros H Hin. specialize (Hnone H).
    destruct (in_dec Z.eq_dec targetId (map r_id (getSiblingRequests s targetId)))
      as [Hm|Hm]; [rewrite Hnone in Hm; destruct Hm|].
    apply Hm. clear Hm Hnone H Hsound.
    unfold getSiblingRequests, allRequestIds in *.
    destruct (existsb _ (standaloneRequests s)) eqn:Hex;
      [now apply existsb_id_present|].
    destruct (searchFoldersRequests targetId (folders s)) as [g|] eqn:Hs.
    + now destruct (searchFoldersRequests_found _ _ _ Hs).
    + exfalso. apply in_app_or in Hin. destruct Hin as [Hin|Hin].
      * apply in_map_iff in Hin. destruct Hin as (x & Hx & Hin).
        assert (Ht : existsb (fun r => r_id r =? targetId) (standaloneRequests s)
                     = true)
          by (apply existsb_exists; exists x; split;
              [assumption|now apply Z.eqb_eq]).
        congruence.
      * now apply (searchFoldersRequests_none targetId (folders s)).
  - intros Hn. destruct (findRequest s targetId) as [q|] eqn:Hq; [|reflexivity].
    exfalso. destruct (Hsound q eq_refl) as [Heq Hin].
    rewrite (getSiblingRequests_absent s targetId Hn) in Hin. destruct Hin.
Qed.

Lemma findRequest_in_siblings_witness :
  r_id (Samples.req 10) = 10 /\
  In (Samples.req 10) (getSiblingRequests Samples.snapshot 10).
Proof.
  apply (proj1 (findRequest_in_siblings Samples.snapshot 10) (Samples.req 10)).
  reflexivity.
Defined.

(** ** Drops, for every drag and target *)

Lemma reorderList_ids {T : Type} (id : T -> Z) (S : list T) (d r : Z)
      (p : GapPosition) :
  (forall i, In i (map id (reorderList id S d r p)) -> In i (map id S)) /\
  (NoDup (map id S) -> Permutation (map id S) (map id (reorderList id S d r p))) /\
  (~ In d (map id S) -> reorderList id S d r p = S).
Proof.
  split; [|split].
  - destruct (reorderList_result id S d r p)
      as [-> | (x & y & l1 & l2 & Hx & Hidx & Hidy & Hab & Hl1 & Hrem & Hres)];
      [auto|].
    intros i Hi. apply in_map_iff in Hi. destruct Hi as (z & <- & Hz).
    apply in_map. rewrite Hres in Hz.
    assert (Hz' : In z (x :: l1 ++ y :: l2)).
    { destruct p; apply in_app_or in Hz; simpl in Hz; simpl;
        rewrite in_app_iff; simpl; tauto. }
    destruct Hz' as [<-|Hz']; [now apply find_some in Hx|].
    rewrite <- Hrem in Hz'. now apply filter_In in Hz'.
  - intros Hnd.
    destruct (reorderList_result id S d r p)
      as [-> | (x & y & l1 & l2 & Hx & Hidx & Hidy & Hab & Hl1 & Hrem & Hres)];
      [reflexivity|].
    apply Permutation_map. rewrite Hres.
    apply (Permutation_trans (unique_drag_permutation id S d x Hnd Hx)).
    rewrite Hrem.
    destruct p; [apply Permutation_middle|].
    change (l1 ++ y :: x :: l2) with (l1 ++ [y] ++ x :: l2).
    change (l1 ++ y :: l2) with (l1 ++ [y] ++ l2).
    rewrite !app_assoc. apply Permutation_middle.
  - intros Hd. unfold reorderList. now rewrite (find_id_notin id S d Hd).
Qed.

(** X7. A gap drop only ever rewrites the order of the reference item's
    own sibling group: the one reorder call it issues carries ids of that
    group only, all of them exactly once when the group's ids are unique,
    and it carries the group's order unchanged when the dragged item is not
    a member of the group (a gap drop never moves an item into another
    group). *)
Theorem handleGapDrop_within_group :
  forall (s : Snapshot) (drag : DragData) (p : GapPosition) (r : Z),
    (drag_type drag = request ->
     let group := map r_id (getSiblingRequests s r) in
     exists ids,
       handleGapDrop s drag (gapTarget p r request) = [requests_reorder ids] /\
       (forall i, In i ids -> In i group) /\
       (NoDup group -> Permutation group ids) /\
       (~ In (drag_id drag) group -> ids = group)) /\
    (drag_type drag = folder ->
     let group := map f_id (getSiblingFolders s r) in
     exists ids,
       handleGapDrop s drag (gapTarget p r folder) = [folders_reorder ids] /\
       (forall i, In i ids -> In i group) /\
       (NoDup group -> Permutation group ids) /\
       (~ In (drag_id drag) group -> ids = group)).
Proof.
  intros s drag p r. split; intros Hk group; unfold handleGapDrop; rewrite Hk;
    simpl; eexists; (split; [reflexivity|]).
  - destruct (reorderList_ids r_id (getSiblingRequests s r) (drag_id drag) r p)
      as (H1 & H2 & H3).
    split; [exact H1|]. split; [exact H2|]. intros Hn. now rewrite H3.
  - destruct (reorderList_ids f_id (getSiblingFolders s r) (drag_id drag) r p)
      as (H1 & H2 & H3).
    split; [exact H1|]. split; [exact H2|]. intros Hn. now rewrite H3.
Qed.

Lemma handleGapDrop_within_group_witness :
  exists ids,
    handleGapDrop Samples.snapshot (mkDragData request 10 (Some 2))
                  (gapTarget before 21 request) = [requests_reorder ids] /\
    (forall i, In i ids -> In i [20; 21]) /\
    (NoDup [20; 21] -> Permutation [20; 21] ids) /\
    (~ In 10 [20; 21] -> ids = [20; 21]).
Proof.
  apply (proj1 (handleGapDrop_within_group
                  Samples.snapshot (mkDragData request 10 (Some 2)) before 21)).
  reflexivity.
Defined.

(** X8. What one run of [handleDrop] persists agrees with [isValidDrop],
    which the handlers never call: with a drag and a target present, the run
    issues exactly one mutating call when [isValidDrop] accepts the pair and
    none when it rejects it.  When the server accepts the call, or when none
    was issued, the run ends with the reload and shows no error; when the
    server refuses the call, no reload follows and the message of the
    failure is shown.  Both slots are cleared either way.  With either slot
    empty the run does nothing at all.  A drop released on a row runs
    [handleDrop] twice, which doubles the mutating calls. *)
Theorem handleDrop_outcome :
  forall (s : Snapshot) (answer answer' : Answer unit) (st : Drag.State),
    let run := handleDrop s answer st in
    match dragData st, dropTarget st with
    | Some drag, Some t =>
        let n := if isValidDrop (drag_type drag) t then 1%nat else 0%nat in
        List.length (filter isMutation (run_calls run)) = n /\
        match answer with
        | resolved _ =>
            (exists calls, run_calls run = calls ++ [loadData]
                           /\ forallb isMutation calls = true) /\
            run_error run = None
        | rejected message =>
            if isValidDrop (drag_type drag) t
            then forallb isMutation (run_calls run) = true /\
                 run_error run = Some message
            else run_calls run = [loadData] /\ run_error run = None
        end /\
        run_state run = Drag.mkState None None /\
        (let (first, second) := dropOnRow s answer answer' st in
         List.length (filter isMutation (run_calls first ++ run_calls second))
         = (n + n)%nat)
    | _, _ => run = mkDropRun [] None st
    end.
Proof.
  intros s answer answer' [[drag|] [t|]]; try reflexivity.
  unfold dropOnRow, handleDrop, isValidDrop. cbn [dragData dropTarget].
  unfold handleGapDrop, handleFolderDrop.
  destruct (type t), (drag_type drag), (refType t) as [[]|], answer, answer';
    cbn; repeat split; try reflexivity;
    try (exists []; split; reflexivity);
    try (eexists [_]; split; reflexivity).
Qed.

Lemma drag_wellFormed_gap (p : GapPosition) (r : Z) (k : DragItemType) :
  wellFormed (gapTarget p r k).
Proof. repeat split; discriminate. Qed.

Lemma handleDragOver_keeps (st : Drag.State) (clientY : float) (rect : Rect)
      (itemId : Z) (k : DragItemType) :
  (forall t, dropTarget st = Some t -> dragData st <> None /\ wellFormed t) ->
  forall t, dropTarget (handleDragOver st clientY rect itemId k) = Some t ->
            dragData (handleDragOver st clientY rect itemId k) <> None /\
            wellFormed t.
Proof.
  intros HI t. unfold handleDragOver.
  destruct (dragData st) as [d|] eqn:Hd;
    [|intros Ht; destruct (HI t Ht) as [H1 _]; congruence].
  simpl. intros Ht. injection Ht as <-.
  split; [discriminate|apply drag_wellFormed_gap].
Qed.

Lemma handleFolderDragOver_keeps (st : Drag.State) (folderId : Z) :
  (forall t, dropTarget st = Some t -> dragData st <> None /\ wellFormed t) ->
  forall t, dropTarget (handleFolderDragOver st folderId) = Some t ->
            dragData (handleFolderDragOver st folderId) <> None /\ wellFormed t.
Proof.
  intros HI t. unfold handleFolderDragOver.
  destruct (dragData st) as [d|] eqn:Hd;
    [|intros Ht; destruct (HI t Ht) as [H1 _]; congruence].
  simpl. intros Ht. injection Ht as <-.
  split; [discriminate|]. unfold wellFormed. simpl. discriminate.
Qed.

Lemma drag_Inv_step (st st' : Drag.State) :
  Drag.step st st' ->
  (forall t, dropTarget st = Some t -> dragData st <> None /\ wellFormed t) ->
  forall t, dropTarget st' = Some t -> dragData st' <> None /\ wellFormed t.
Proof.
  intros Hstep HI. destruct Hstep.
  - simpl. intros t Ht. split; [discriminate|]. now apply HI.
  - unfold folderRowDragOver. destruct (_ || _).
    + now apply handleDragOver_keeps.
    + now apply handleFolderDragOver_keeps.
  - now apply handleDragOver_keeps.
  - unfold handleDrop. destruct (dragData st) eqn:Hd, (dropTarget st) eqn:Ht;
      [|simpl; rewrite ?Hd, ?Ht; exact HI..].
    destruct (match type d0 with
              | type_gap => handleGapDrop s d d0
              | type_folder => handleFolderDrop d d0
              end), answer; simpl; discriminate.
  - simpl. discriminate.
Qed.

(** X9. In every drag state the events can reach, a drop target is present
    only while an item is being dragged, and it carries the fields its type
    needs (position, reference id and reference kind for a gap; the folder
    id for a folder), so the non-null assertions of the drop handlers never
    meet an absent field. *)
Theorem drag_target_well_formed :
  forall st : Drag.State,
    Drag.reachable st ->
    forall t, dropTarget st = Some t -> dragData st <> None /\ wellFormed t.
Proof.
  induction 1 as [|st st' _ IH Hstep]; [discriminate|].
  exact (drag_Inv_step st st' Hstep IH).
Qed.

Lemma drag_target_well_formed_witness :
  let st := folderRowDragOver
              (handleDragStart (Drag.mkState None None) (mkDragData folder 1 None))
              120 Samples.row 3 in
  dragData st <> None /\ wellFormed (folderTarget 3).
Proof.
  intros st. apply (drag_target_well_formed st).
  - apply Drag.reachable_step
      with (handleDragStart (Drag.mkState None None) (mkDragData folder 1 None)).
    + apply Drag.reachable_step with (Drag.mkState None None).
      * apply Drag.reachable_initial.
      * apply Drag.step_dragStart.
    + apply Drag.step_folderRowDragOver.
  - reflexivity.
Defined.

(** ** The editing session, over its reachable states *)

Module SessionMore.

Import Session.
Import SessionFacts.

Lemma ActiveOk_ids (st : State) :
  ActiveOk st <->
  In (activeTabId st) (map id (openTabs st))
  \/ (map id (openTabs st) = [] /\ activeTabId st = ""%string).
Proof.
  unfold ActiveOk. split; intros [H|[H1 H2]].
  - left. destruct H as (t & Ht & <-). now apply in_map.
  - right. now rewrite H1.
  - left. apply in_map_iff in H. destruct H as (t & Ht & Hin). eauto.
  - right. split; [|assumption]. now destruct (openTabs st).
Qed.

Lemma ActiveOk_transfer (st st' : State) :
  map id (openTabs st') = map id (openTabs st) ->
  activeTabId st' = activeTabId st ->
  ActiveOk st -> ActiveOk st'.
Proof.
  intros Hid Ha. rewrite !ActiveOk_ids, Hid, Ha. tauto.
Qed.

Lemma ActiveOk_append (tabs : list RequestTab) (t : RequestTab) (c : nat) :
  ActiveOk (mkState (tabs ++ [t]) (id t) c).
Proof.
  left. exists t. split; [|reflexivity]. apply in_or_app. right. now left.
Qed.

Lemma ActiveOk_closeTab (st st' : State) (tabId : string) :
  closeTab st tabId = Some st' -> ActiveOk st -> ActiveOk st'.
Proof.
  unfold closeTab, closeTabFrom. intros Hc HA.
  set (remaining := filter (fun t => negb (id t =? tabId)%string) (openTabs st)) in *.
  destruct (String.eqb_spec (activeTabId st) tabId) as [Heq|Hne].
  - destruct (Z.ltb_spec 0 (Z.of_nat (List.length remaining))) as [Hpos|Hzero].
    + destruct (if _ <? 0 then None else nth_error remaining _)
        as [newActive|] eqn:Hn; [|discriminate].
      injection Hc as <-. left. exists newActive. split; [|reflexivity]. simpl.
      destruct (_ <? 0); [discriminate|]. now apply nth_error_In in Hn.
    + injection Hc as <-. right. simpl. split; [|reflexivity].
      destruct remaining; [reflexivity|simpl in Hzero; lia].
  - injection Hc as <-. destruct HA as [(t & Ht & Hid)|[Hnil Hempty]].
    + left. exists t. split; [|assumption]. simpl. apply filter_In.
      split; [assumption|]. apply negb_true_iff, String.eqb_neq. congruence.
    + right. simpl. split; [|assumption]. unfold remaining. now rewrite Hnil.
Qed.

(** As long as every continuation runs while the tab it was started from
    is still the active one, the active id keeps naming an open tab. *)
Lemma ActiveOk_step (createdOk : State -> Z -> Prop) (st st' : State) :
  stepWith createdOk currentClosure st st' -> ActiveOk st -> ActiveOk st'.
Proof.
  intros Hstep HA. destruct Hstep.
  - unfold loadRequest. destruct (existing st req) as [tab|] eqn:He.
    + left. exists tab. split; [|reflexivity]. simpl.
      now apply find_some in He.
    + simpl. apply (ActiveOk_append (openTabs st) (mkRequestTab _ _ _ _ _ _ _ _ _ _ _)).
  - unfold newRequest. simpl.
    apply (ActiveOk_append (openTabs st) (mkRequestTab _ _ _ _ _ _ _ _ _ _ _)).
  - unfold loadFromHistory. simpl.
    apply (ActiveOk_append (openTabs st) (mkRequestTab _ _ _ _ _ _ _ _ _ _ _)).
  - apply ActiveOk_transfer with st; [|reflexivity|assumption].
    apply (onActive_ids (activeTabId st)). reflexivity.
  - apply ActiveOk_transfer with st; [|reflexivity|assumption].
    apply (onActive_ids (activeTabId st)). reflexivity.
  - apply ActiveOk_transfer with st; [|reflexivity|assumption].
    apply (onActive_ids a). reflexivity.
  - left. exists t. split; [assumption|reflexivity].
  - eapply ActiveOk_closeTab; eassumption.
  - unfold currentClosure in *. subst a. eapply ActiveOk_closeTab; eassumption.
  - unfold closeOtherTabs.
    destruct (filter _ (openTabs st)) as [|x keep] eqn:Hk; [assumption|].
    left. exists x. split; [now left|]. simpl.
    assert (Hx : In x (filter (fun t => (id t =? tabId)%string) (openTabs st)))
      by (rewrite Hk; now left).
    apply filter_In in Hx. now apply String.eqb_eq.
  - right. split; reflexivity.
  - destruct (saveResume_ids a cr nameOverride answer st) as (Hids & _ & Hact).
    now apply ActiveOk_transfer with st.
Qed.

Lemma reachableWith_ActiveOk (createdOk : State -> Z -> Prop) (st : State) :
  reachableWith createdOk currentClosure st -> ActiveOk st.
Proof.
  induction 1 as [|st st' _ IH Hstep].
  - left. eexists. split; [now left|reflexivity].
  - exact (ActiveOk_step _ st st' Hstep IH).
Qed.

Lemma findIndex_In {A : Type} (p : A -> bool) (l : list A) :
  findIndex p l <> -1 <-> exists x, In x l /\ p x = true.
Proof.
  induction l as [|x l IH]; simpl.
  - split; [congruence|intros (x & [] & _)].
  - destruct (p x) eqn:Hx.
    + split; [intros _; exists x; auto|discriminate].
    + pose proof (findIndex_range p l) as Hr.
      destruct (Z.eqb_spec (findIndex p l) (-1)) as [He|He].
      * split; [congruence|]. intros (y & [<-|Hy] & Hp); [congruence|].
        exfalso. apply (proj2 IH); eauto.
      * split; [|lia]. intros _. destruct (proj1 IH He) as (y & Hy & Hp).
        exists y. auto.
Qed.

Lemma filter_length_le {A : Type} (f : A -> bool) (l : list A) :
  (List.length (filter f l) <= List.length l)%nat.
Proof.
  induction l as [|x l IH]; simpl; [lia|]. destruct (f x); simpl; lia.
Qed.

(** When [closeTab] reads [newActive.id] of [undefined]. *)
Lemma closeTabFrom_None (a : string) (st : State) (tabId : string) :
  closeTabFrom a st tabId = None <->
  a = tabId /\ ~ In tabId (map id (openTabs st)) /\ openTabs st <> [].
Proof.
  unfold closeTabFrom.
  set (remaining := filter (fun t => negb (id t =? tabId)%string) (openTabs st)).
  set (idx := findIndex (fun t => (id t =? tabId)%string) (openTabs st)).
  assert (Hidx : idx <> -1 <-> In tabId (map id (openTabs st))).
  { unfold idx. rewrite findIndex_In, in_map_iff.
    split; intros (x & H1 & H2).
    - exists x. split; [now apply String.eqb_eq|assumption].
    - exists x. split; [assumption|now apply String.eqb_eq]. }
  pose proof (findIndex_range (fun t => (id t =? tabId)%string) (openTabs st)) as Hr.
  fold idx in Hr.
  destruct (String.eqb_spec a tabId) as [Heq|Hne];
    [|split; [discriminate|intros (H & _); contradiction]].
  destruct (Z.ltb_spec 0 (Z.of_nat (List.length remaining))) as [Hpos|Hzero].
  - set (k := Z.min idx (Z.of_nat (List.length remaining) - 1)).
    destruct (Z.ltb_spec k 0) as [Hneg|Hk].
    + split; [intros _|reflexivity].
      split; [assumption|]. split.
      * intros Hin. apply Hidx in Hin. unfold k in Hneg. lia.
      * intros Hnil. unfold remaining in Hpos. rewrite Hnil in Hpos. simpl in Hpos. lia.
    + destruct (nth_error remaining (Z.to_nat k)) as [newActive|] eqn:Hn.
      * split; [discriminate|]. intros (_ & Hnot & _). exfalso.
        apply Hnot, Hidx. unfold k in Hk. lia.
      * exfalso. apply nth_error_None in Hn. unfold k in Hn. lia.
  - split; [discriminate|]. intros (_ & Hnot & Hne). exfalso.
    assert (Hall : remaining = openTabs st).
    { unfold remaining. apply filter_keep_all. intros x Hx.
      apply negb_true_iff, String.eqb_neq. intros Hid. apply Hnot.
      rewrite <- Hid. now apply in_map. }
    rewrite Hall in Hzero. destruct (openTabs st); [congruence|simpl in Hzero; lia].
Qed.

Lemma only_member {A : Type} (l : list A) (x y : A) :
  (List.length l <= 1)%nat -> In x l -> In y l -> x = y.
Proof.
  destruct l as [|z [|w l]]; simpl; intros Hlen Hx Hy; [tauto| |lia].
  destruct Hx as [<-|[]], Hy as [<-|[]]. reflexivity.
Qed.

Lemma tabIdOf_not_empty (k : nat) : tabIdOf k <> ""%string.
Proof. unfold tabIdOf. simpl. discriminate. Qed.

(** X11. In every reachable session state the tab ids are pairwise
    distinct, each is [tab-k] for some [k] below the counter, and the id the
    next [makeTabId()] hands out is the id of no open tab. *)
Theorem reachable_tab_ids :
  forall st : State,
    reachable st ->
    NoDup (map id (openTabs st)) /\
    (forall t, In t (openTabs st) ->
               exists k, (k < tabCounter st)%nat /\ id t = tabIdOf k) /\
    ~ In (fst (makeTabId st)) (map id (openTabs st)).
Proof.
  intros st Hr. destruct (reachable_Inv st Hr) as [H1 H2].
  split; [assumption|]. split.
  - intros t Ht. apply H2. now apply in_map.
  - simpl. intros Hin. destruct (H2 _ Hin) as (k & Hk & Heq).
    apply tabIdOf_inj in Heq. lia.
Qed.

Lemma reachable_tab_ids_witness :
  let st := newRequest initial None in
  NoDup (map id (openTabs st)) /\
  (forall t, In t (openTabs st) ->
             exists k, (k < tabCounter st)%nat /\ id t = tabIdOf k) /\
  ~ In (fst (makeTabId st)) (map id (openTabs st)).
Proof.
  intros st. apply (reachable_tab_ids st).
  apply reachable_step with initial; [apply reachable_initial|apply step_newRequest].
Defined.

(** X12. As long as every continuation of an awaited call runs while the
    tab it was started from is still the active one, in every reachable
    session state the active id is the id of an open tab, unless no tab is
    open and the active id is the empty string; with a tab open,
    [currentTab] is then the active tab and never the fallback
    [openTabs[0]].  Without that proviso this fails: when the request of an
    inactive tab is deleted and the user activates that tab before the
    server answers, the continuation closes the tab with the [closeTab] of
    the earlier render, and the active id is left naming the closed tab. *)
Theorem reachable_active_tab :
  (forall st : State,
      reachableWith anyId currentClosure st ->
      ActiveOk st /\
      (openTabs st <> [] ->
       exists t, currentTab st = Some t /\ In t (openTabs st) /\
                 id t = activeTabId st)) /\
  (forall (st0 : State) (rid : Z) (tab : RequestTab),
      reachable st0 ->
      find (linkedTo rid) (openTabs st0) = Some tab ->
      id tab <> activeTabId st0 ->
      let st1 := setActiveTabId st0 (id tab) in
      exists st2,
        deleteResume (openTabs st0) (activeTabId st0) rid (resolved tt) st1
        = ([loadData], Some st2) /\
        reachable st2 /\
        activeTabId st2 = id tab /\
        ~ In (id tab) (map id (openTabs st2)) /\
        ~ ActiveOk st2 /\
        currentTab st2 = hd_error (openTabs st2)).
Proof.
  split.
  - intros st Hr. pose proof (reachableWith_ActiveOk _ st Hr) as HA.
    split; [assumption|]. intros Hne.
    destruct HA as [(t & Ht & Hid)|[Hnil _]]; [|contradiction].
    exists t. split; [|split; assumption].
    apply find_active_unique; [apply (reachableWith_Inv _ _ st Hr)|assumption..].
  - intros st0 rid tab Hr Hf Hne st1.
    pose proof (reachable_Inv st0 Hr) as [Hids Hcnt].
    apply find_some in Hf as Hf'. destruct Hf' as [Hin _].
    set (remaining := filter (fun t => negb (id t =? id tab)%string) (openTabs st0)).
    exists (mkState remaining (id tab) (tabCounter st0)).
    assert (Hrun : closeTabFrom (activeTabId st0) st1 (id tab)
                   = Some (mkState remaining (id tab) (tabCounter st0))).
    { unfold closeTabFrom.
      destruct (String.eqb_spec (activeTabId st0) (id tab)) as [Heq|_];
        [congruence|reflexivity]. }
    assert (Hgone : ~ In (id tab) (map id remaining)).
    { intros Hi. apply in_map_iff in Hi. destruct Hi as (u & Hu & Hi).
      apply filter_In in Hi. destruct Hi as [_ Hi].
      apply negb_true_iff, String.eqb_neq in Hi. contradiction. }
    split; [unfold deleteResume; now rewrite Hf, Hrun|].
    split.
    { apply reachable_step with st1.
      - apply reachable_step with st0; [assumption|].
        now apply step_setActiveTabId.
      - exact (step_closeTabFrom anyId anyClosure (activeTabId st0) st1 (id tab) _
                                 I Hrun). }
    split; [reflexivity|]. split; [exact Hgone|]. split.
    + intros [(t & Ht & Hid)|[_ Hempty]].
      * apply Hgone. simpl in *. rewrite <- Hid. now apply in_map.
      * simpl in Hempty.
        destruct (Hcnt (id tab) (in_map id _ _ Hin)) as (k & _ & Hk).
        rewrite Hk in Hempty. exact (tabIdOf_not_empty k Hempty).
    + unfold currentTab. cbn [openTabs activeTabId].
      destruct (find (fun t => (id t =? id tab)%string) remaining) as [u|] eqn:Hu;
        [|reflexivity].
      exfalso. apply find_some in Hu. destruct Hu as [Hu Hi].
      apply String.eqb_eq in Hi. apply Hgone. rewrite <- Hi. now apply in_map.
Qed.

Lemma reachable_active_tab_witness :
  (let st := loadRequest initial (Samples.req 20) in
   ActiveOk st /\
   (openTabs st <> [] ->
    exists t, currentTab st = Some t /\ In t (openTabs st) /\ id t = activeTabId st)) /\
  (let st0 := newRequest (loadRequest initial (Samples.req 20)) None in
   let st1 := setActiveTabId st0 "tab-1" in
   exists st2,
     deleteResume (openTabs st0) (activeTabId st0) 20 (resolved tt) st1
     = ([loadData], Some st2) /\
     reachable st2 /\
     activeTabId st2 = "tab-1"%string /\
     ~ In "tab-1"%string (map id (openTabs st2)) /\
     ~ ActiveOk st2 /\
     currentTab st2 = hd_error (openTabs st2)).
Proof.
  split.
  - intros st. apply (proj1 reachable_active_tab st).
    apply reachable_step with initial; [apply reachable_initial|apply step_loadRequest].
  - intros st0 st1.
    refine (proj2 reachable_active_tab st0 20
                  (mkRequestTab "tab-1" (Some 20) "r" "GET" "http://localhost/"
                                [emptyParam] [emptyParam] "" None None false)
                  _ eq_refl _).
    + apply reachable_step with (loadRequest initial (Samples.req 20));
        [|apply step_newRequest].
      apply reachable_step with initial; [apply reachable_initial|apply step_loadRequest].
    + vm_compute. discriminate.
Defined.

(** X13. [closeTab] throws (the read of [newActive.id] meets [undefined])
    exactly when the id to close is the active id its render captured, no
    open tab has that id, and some tab is open.  Whenever it returns, the
    tabs left are those with another id.  Called from the current render in
    a state whose active id names an open tab (or with no tab open and the
    empty active id) it returns, and the new state is again of that kind. *)
Theorem closeTab_throws_exactly :
  forall (a : string) (st : State) (tabId : string),
    (closeTabFrom a st tabId = None <->
     a = tabId /\ ~ In tabId (map id (openTabs st)) /\ openTabs st <> []) /\
    (forall st',
        closeTabFrom a st tabId = Some st' ->
        openTabs st' = filter (fun t => negb (id t =? tabId)%string) (openTabs st) /\
        (forall t, In t (openTabs st') -> id t <> tabId)) /\
    (ActiveOk st -> exists st', closeTab st tabId = Some st' /\ ActiveOk st').
Proof.
  intros a st tabId. split; [apply closeTabFrom_None|]. split.
  - intros st' Hc. destruct (closeTabFrom_tabs a st st' tabId Hc) as [Htabs _].
    split; [assumption|]. intros t Ht. rewrite Htabs in Ht.
    apply filter_In in Ht. destruct Ht as [_ Ht].
    now apply negb_true_iff, String.eqb_neq in Ht.
  - intros HA. destruct (closeTab st tabId) as [st'|] eqn:Hc.
    + exists st'. split; [reflexivity|]. exact (ActiveOk_closeTab st st' tabId Hc HA).
    + exfalso. apply closeTabFrom_None in Hc. destruct Hc as (Ha & Hnot & Hne).
      destruct HA as [(t & Ht & Hid)|[Hnil _]]; [|contradiction].
      apply Hnot. rewrite <- Ha, <- Hid. now apply in_map.
Qed.

Lemma closeTab_throws_exactly_witness :
  let st := newRequest initial None in
  (closeTabFrom "tab-9" st "tab-9" = None) /\
  (exists st', closeTab st "tab-1" = Some st' /\ ActiveOk st').
Proof.
  intros st. split.
  - apply (proj1 (closeTab_throws_exactly "tab-9" st "tab-9")).
    split; [reflexivity|]. split; [|discriminate].
    vm_compute. intuition discriminate.
  - apply (proj2 (proj2 (closeTab_throws_exactly "tab-1" st "tab-1"))).
    left. eexists. split; [right; left; reflexivity|reflexivity].
Defined.

(** X14. The confirmed [deleteRequest], when nothing else happens to the
    session between the menu click and the answer, in a state with unique
    tab ids whose active id names an open tab.  It issues the delete.  When
    the server accepts it, the reload follows and the handler returns
    normally; it closes the first tab linked to the deleted request, so if
    at most one tab was linked to it no tab is linked to it afterwards, and
    every tab that was not linked to it is kept.  When the server refuses,
    nothing follows the delete call and the session is left as it was, the
    tab of the request included. *)
Theorem deleteRequest_closes_tab :
  forall (st : State) (rid : Z),
    NoDup (map id (openTabs st)) -> ActiveOk st ->
    (exists st',
        deleteRequest st rid (resolved tt)
        = ([requests_delete rid; loadData], Some st') /\
        ((List.length (tabsOfRequest st rid) <= 1)%nat -> tabsOfRequest st' rid = []) /\
        (forall t, In t (openTabs st) -> requestId t <> Some rid ->
                   In t (openTabs st'))) /\
    (forall message,
        deleteRequest st rid (rejected message) = ([requests_delete rid], Some st)).
Proof.
  intros st rid Hids HA. split; [|reflexivity].
  unfold deleteRequest, deleteResume. cbn [fst snd].
  destruct (find (linkedTo rid) (openTabs st)) as [tab|] eqn:Hf.
  - assert (Hdef : exists st', closeTab st (id tab) = Some st').
    { destruct (closeTab st (id tab)) as [st'|] eqn:Hc; [eauto|].
      exfalso. apply closeTabFrom_None in Hc. destruct Hc as (Ha & Hnot & _).
      apply find_some in Hf. destruct Hf as [Htab _].
      apply Hnot. now apply in_map. }
    destruct Hdef as (st' & Hc).
    destruct (closeTabFrom_tabs _ st st' (id tab) Hc) as [Htabs _].
    fold (closeTab st (id tab)). rewrite Hc.
    apply find_some in Hf. destruct Hf as [Htab Hl].
    exists st'. split; [reflexivity|]. split.
    + intros Hone. unfold tabsOfRequest. rewrite Htabs.
      destruct (filter (linkedTo rid) (filter _ (openTabs st))) as [|t rest] eqn:He;
        [reflexivity|].
      exfalso.
      assert (Ht : In t (filter (linkedTo rid)
                                (filter (fun u => negb (id u =? id tab)%string)
                                        (openTabs st))))
        by (rewrite He; now left).
      apply filter_In in Ht. destruct Ht as [Ht Hlt].
      apply filter_In in Ht. destruct Ht as [Ht Hne].
      apply negb_true_iff, String.eqb_neq in Hne. apply Hne. f_equal.
      apply (only_member (filter (linkedTo rid) (openTabs st)));
        [exact Hone|apply filter_In; now split..].
    + intros t Ht Hn. rewrite Htabs. apply filter_In. split; [assumption|].
      apply negb_true_iff, String.eqb_neq. intros Heq.
      apply Hn. rewrite (unique_by_id (openTabs st) t tab Hids Ht Htab Heq).
      now apply linkedTo_spec.
  - exists st. split; [reflexivity|]. split; [|auto]. intros _.
    unfold tabsOfRequest.
    destruct (filter (linkedTo rid) (openTabs st)) as [|t rest] eqn:He; [reflexivity|].
    assert (Ht : In t (filter (linkedTo rid) (openTabs st))) by (rewrite He; now left).
    apply filter_In in Ht. destruct Ht as [Ht Hlt].
    rewrite (find_none _ _ Hf t Ht) in Hlt. discriminate.
Qed.

Lemma deleteRequest_closes_tab_witness :
  let st := loadRequest initial (Samples.req 20) in
  (exists st',
      deleteRequest st 20 (resolved tt) = ([requests_delete 20; loadData], Some st') /\
      ((List.length (tabsOfRequest st 20) <= 1)%nat -> tabsOfRequest st' 20 = []) /\
      (forall t, In t (openTabs st) -> requestId t <> Some 20 -> In t (openTabs st'))) /\
  (forall message,
      deleteRequest st 20 (rejected message) = ([requests_delete 20], Some st)).
Proof.
  intros st. apply (deleteRequest_closes_tab st 20).
  - vm_compute. repeat constructor; simpl; intuition discriminate.
  - left. eexists. split; [right; left; reflexivity|reflexivity].
Defined.

Lemma filter_unique_id (l : list RequestTab) (t : RequestTab) :
  NoDup (map id l) -> In t l ->
  filter (fun u => (id u =? id t)%string) l = [t].
Proof.
  intros Hnd Hin. apply in_split in Hin. destruct Hin as (l1 & l2 & ->).
  pose proof (others_differ l1 l2 t Hnd) as Hd.
  rewrite filter_app. simpl. rewrite String.eqb_refl.
  assert (Hnone : forall l, (forall u, In u l -> In u (l1 ++ l2)) ->
                            filter (fun u => (id u =? id t)%string) l = []).
  { induction l as [|u l IH]; simpl; intros Hsub; [reflexivity|].
    rewrite (Hd u (Hsub u (or_introl eq_refl))). apply IH.
    intros v Hv. apply Hsub. now right. }
  rewrite (Hnone l1), (Hnone l2); [reflexivity| |];
    intros u Hu; apply in_or_app; tauto.
Qed.

Lemma onActive_split (g : RequestTab -> RequestTab) (l1 l2 : list RequestTab)
      (t : RequestTab) :
  NoDup (map id (l1 ++ t :: l2)) ->
  onActive (id t) g (l1 ++ t :: l2) = l1 ++ g t :: l2.
Proof.
  intros Hnd. pose proof (others_differ l1 l2 t Hnd) as Hd.
  assert (Hsame : forall l, (forall u, In u l -> In u (l1 ++ l2)) ->
                            onActive (id t) g l = l).
  { induction l as [|u l IH]; simpl; intros Hsub; [reflexivity|].
    rewrite (Hd u (Hsub u (or_introl eq_refl))). f_equal. apply IH.
    intros v Hv. apply Hsub. now right. }
  unfold onActive in *. rewrite map_app. simpl. rewrite String.eqb_refl.
  rewrite (Hsame l1), (Hsame l2); [reflexivity| |];
    intros u Hu; apply in_or_app; tauto.
Qed.

Lemma orString_empty (s : string) : orString s "" = s.
Proof.
  unfold orString, truthyString. now destruct (String.eqb_spec s "") as [->|].
Qed.

Lemma currentRequest_of (st : State) (t : RequestTab) :
  NoDup (map id (openTabs st)) -> In t (openTabs st) -> id t = activeTabId st ->
  currentRequest st
  = mkCurrentRequest (requestId t) (name t) (orString (method t) "GET") (url t)
                     (headers t) (queryParams t) (body t) (folder_id t).
Proof.
  intros Hnd Hin Hid. unfold currentRequest.
  rewrite (find_active_unique st t Hnd Hin Hid). now rewrite !orString_empty.
Qed.

(** X15. In every reachable session state, closing the other tabs of an
    open tab leaves exactly that tab, which becomes the active one; for an
    id no open tab has, nothing changes. *)
Theorem closeOtherTabs_outcome :
  forall (st : State) (tabId : string),
    reachable st ->
    (forall t, In t (openTabs st) -> id t = tabId ->
               closeOtherTabs st tabId = mkState [t] tabId (tabCounter st)) /\
    (~ In tabId (map id (openTabs st)) -> closeOtherTabs st tabId = st).
Proof.
  intros st tabId Hr. pose proof (reachable_Inv st Hr) as [Hids _].
  unfold closeOtherTabs. split.
  - intros t Ht <-. now rewrite (filter_unique_id (openTabs st) t Hids Ht).
  - intros Hn.
    destruct (filter _ (openTabs st)) as [|x keep] eqn:Hk; [reflexivity|].
    exfalso. apply Hn.
    assert (Hx : In x (filter (fun t => (id t =? tabId)%string) (openTabs st)))
      by (rewrite Hk; now left).
    apply filter_In in Hx. destruct Hx as [Hx Heq].
    apply String.eqb_eq in Heq. rewrite <- Heq. now apply in_map.
Qed.

Lemma closeOtherTabs_outcome_witness :
  let st := newRequest initial None in
  let t := mkRequestTab "tab-1" None newRequestName "GET" "" [emptyParam]
                        [emptyParam] "" None None true in
  closeOtherTabs st "tab-1" = mkState [t] "tab-1" (tabCounter st).
Proof.
  intros st t.
  assert (Hr : reachable st)
    by (apply reachable_step with initial;
        [apply reachable_initial|apply step_newRequest]).
  apply (proj1 (closeOtherTabs_outcome st "tab-1" Hr) t).
  - right. left. reflexivity.
  - reflexivity.
Defined.

(** X16. In every reachable session state a field edit rewrites the active
    tab only: every other tab, the tab order, the active id and the counter
    stay as they were; the active tab keeps its id, its link to a persisted
    request, its name, folder and response, takes the edited value, has
    [dirty = true], and an empty method is replaced by GET.  With no tab
    open an edit changes nothing. *)
Theorem editField_active_only :
  forall (st : State) (e : FieldEdit),
    (forall t,
        reachable st -> In t (openTabs st) -> id t = activeTabId st ->
        exists l1 l2,
          openTabs st = l1 ++ t :: l2 /\
          editField st e
          = mkState
              (l1 ++
               mkRequestTab
                 (id t) (requestId t) (name t)
                 match e with edit_method m => m | _ => orString (method t) "GET" end
                 match e with edit_url u => u | _ => url t end
                 match e with edit_headers hs => hs | _ => headers t end
                 match e with edit_queryParams qs => qs | _ => queryParams t end
                 match e with edit_body b => b | _ => body t end
                 (folder_id t) (response t) true
               :: l2)
              (activeTabId st) (tabCounter st)) /\
    (openTabs st = [] -> editField st e = st).
Proof.
  intros st e. split.
  - intros t Hr Ht Hid. pose proof (reachable_Inv st Hr) as [Hids _].
    destruct (in_split _ _ Ht) as (l1 & l2 & Htabs). exists l1, l2.
    split; [assumption|].
    unfold editField, setCurrentRequest, setCurrentRequestFrom, withTabs.
    rewrite (currentRequest_of st t Hids Ht Hid). f_equal.
    rewrite <- Hid.
    match goal with
    | |- map (fun u => if _ then ?g else u) _ = _ =>
        change (onActive (id t) (fun u => g) (openTabs st) = l1 ++
                  mkRequestTab
                    (id t) (requestId t) (name t)
                    match e with edit_method m => m | _ => orString (method t) "GET" end
                    match e with edit_url u => u | _ => url t end
                    match e with edit_headers hs => hs | _ => headers t end
                    match e with edit_queryParams qs => qs | _ => queryParams t end
                    match e with edit_body b => b | _ => body t end
                    (folder_id t) (response t) true :: l2)
    end.
    rewrite Htabs, onActive_split by (now rewrite <- Htabs).
    destruct e; reflexivity.
  - intros Hnil. unfold editField, setCurrentRequest, setCurrentRequestFrom, withTabs.
    rewrite Hnil. destruct st as [tabs a c]. simpl in *. now subst.
Qed.

Lemma editField_active_only_witness :
  let st := initial in
  let t := mkRequestTab "tab-0" None newRequestName "GET" "" [emptyParam]
                        [emptyParam] "" None None true in
  exists l1 l2,
    openTabs st = l1 ++ t :: l2 /\
    editField st (edit_url "http://x")
    = mkState
        (l1 ++
         mkRequestTab "tab-0" None newRequestName "GET" "http://x" [emptyParam]
                      [emptyParam] "" None None true :: l2)
        "tab-0" 1.
Proof.
  intros st t.
  apply (proj1 (editField_active_only st (edit_url "http://x")) t).
  - apply reachable_initial.
  - now left.
  - reflexivity.
Defined.

(** What [saveRequest] does to a session whose active tab is [t]. *)
Lemma saveRequest_of (st : State) (nameOverride : option string) (answer : Answer Z)
      (t : RequestTab) (l1 l2 : list RequestTab) :
  NoDup (map id (openTabs st)) ->
  openTabs st = l1 ++ t :: l2 -> id t = activeTabId st ->
  let name' :=
    match nameOverride with
    | Some n => if truthyString n then n else name t
    | None => name t
    end in
  let data :=
    mkRequestData (Some name') (Some (orString (method t) "GET")) (Some (url t))
                  (Some (entriesOfParams (headers t)))
                  (Some (entriesOfParams (queryParams t)))
                  (if truthyString (body t) then Some (body t) else None)
                  (folder_id t) in
  let call :=
    match (if truthyId (requestId t) then requestId t else None) with
    | Some i => requests_update i data
    | None => requests_create data
    end in
  saveRequest st nameOverride answer
  = match answer with
    | rejected message => mkSaveRun [call] (Some message) st
    | resolved createdId =>
        mkSaveRun
          [call; loadData] None
          (mkState
             (l1 ++
              (if truthyId (requestId t)
               then mkRequestTab (id t) (requestId t) name' (method t) (url t)
                                 (headers t) (queryParams t) (body t)
                                 (folder_id t) (response t) false
               else mkRequestTab (id t) (Some createdId) name'
                                 (orString (method t) "GET") (url t)
                                 (headers t) (queryParams t) (body t)
                                 (folder_id t) (response t) false)
              :: l2)
             (activeTabId st) (tabCounter st))
    end.
Proof.
  intros Hnd Htabs Hid name' data call.
  assert (Ht : In t (openTabs st)) by (rewrite Htabs; apply in_elt).
  assert (Hnd' : NoDup (map id (l1 ++ t :: l2))) by now rewrite <- Htabs.
  unfold saveRequest, saveCall, saveData, saveName.
  rewrite (currentRequest_of st t Hnd Ht Hid).
  cbn [cr_id cr_name cr_method cr_url cr_headers cr_queryParams cr_body cr_folder_id].
  fold name'. fold data. fold call.
  destruct answer as [createdId|message]; [|reflexivity].
  unfold saveResume, saveName.
  cbn [cr_id cr_name cr_method cr_url cr_headers cr_queryParams cr_body cr_folder_id
       save_calls save_error save_state].
  fold name'. f_equal.
  destruct (truthyId (requestId t)) eqn:Htruthy.
  - unfold withTabs. f_equal. rewrite <- Hid.
    match goal with
    | |- map (fun u => if _ then ?g else u) _ = _ =>
        change (onActive (id t) (fun u => g) (openTabs st) = l1 ++
                  mkRequestTab (id t) (requestId t) name' (method t) (url t)
                               (headers t) (queryParams t) (body t)
                               (folder_id t) (response t) false :: l2)
    end.
    rewrite Htabs, onActive_split by assumption.
    f_equal. f_equal. subst name'.
    destruct nameOverride as [n|]; [destruct (truthyString n)|]; reflexivity.
  - unfold withTabs. cbn [activeTabId tabCounter setCurrentRequestFrom withTabs].
    f_equal. rewrite setCurrentRequestFrom_tabs. cbn [cr_id cr_name cr_method cr_url
      cr_headers cr_queryParams cr_body cr_folder_id].
    rewrite <- Hid, Htabs, onActive_split by assumption.
    match goal with
    | |- map (fun u => if _ then ?g else u) ?l = _ =>
        change (map (fun u => if (id u =? id t)%string then g else u) l)
          with (onActive (id t) (fun u => g) l)
    end.
    rewrite (onActive_split _ l1 l2
               (mkRequestTab (id t) (Some createdId) name' (orString (method t) "GET")
                             (url t) (headers t) (queryParams t) (body t)
                             (folder_id t) (response t) true)).
    + cbn [id requestId name method url headers queryParams body folder_id response].
      f_equal. f_equal.
      destruct nameOverride as [n|]; [destruct (truthyString n)|]; reflexivity.
    + rewrite map_app in *. exact Hnd'.
Qed.

(** X17. Saving the active tab [t] of a reachable session state, when
    nothing else happens to the session between the call and its answer.
    One call is issued: an update of the linked request when [t.requestId]
    is a non-zero number, a create otherwise.  When the server accepts it,
    the reload follows; the tab then has [dirty = false], the same id and
    content, the saved name, and is linked to the request it had or to the
    created one; all other tabs, the active id and the counter are
    untouched.  When the server refuses it, no reload follows, the message
    is shown as the error and the session is left as it was, the dirty flag
    included. *)
Theorem saveRequest_outcome :
  forall (st : State) (nameOverride : option string) (answer : Answer Z)
         (t : RequestTab),
    reachable st -> In t (openTabs st) -> id t = activeTabId st ->
    exists l1 l2 data,
      let call :=
        match (if truthyId (requestId t) then requestId t else None) with
        | Some i => requests_update i data
        | None => requests_create data
        end in
      openTabs st = l1 ++ t :: l2 /\
      d_url data = Some (url t) /\
      d_body data = (if truthyString (body t) then Some (body t) else None) /\
      d_headers data = Some (entriesOfParams (headers t)) /\
      match answer with
      | rejected message =>
          saveRequest st nameOverride answer = mkSaveRun [call] (Some message) st
      | resolved createdId =>
          exists t',
            saveRequest st nameOverride answer
            = mkSaveRun [call; loadData] None
                        (mkState (l1 ++ t' :: l2) (activeTabId st) (tabCounter st)) /\
            d_name data = Some (name t') /\
            id t' = id t /\ dirty t' = false /\
            requestId t'
            = (if truthyId (requestId t) then requestId t else Some createdId) /\
            url t' = url t /\ body t' = body t /\ headers t' = headers t /\
            queryParams t' = queryParams t /\ response t' = response t
      end.
Proof.
  intros st nameOverride answer t Hr Ht Hid.
  pose proof (reachable_Inv st Hr) as [Hids _].
  destruct (in_split _ _ Ht) as (l1 & l2 & Htabs).
  pose proof (saveRequest_of st nameOverride answer t l1 l2 Hids Htabs Hid) as Hs.
  cbv zeta in Hs. exists l1, l2.
  exists (mkRequestData
            (Some match nameOverride with
                  | Some n => if truthyString n then n else name t
                  | None => name t
                  end)
            (Some (orString (method t) "GET")) (Some (url t))
            (Some (entriesOfParams (headers t)))
            (Some (entriesOfParams (queryParams t)))
            (if truthyString (body t) then Some (body t) else None)
            (folder_id t)).
  cbv zeta. split; [assumption|].
  split; [reflexivity|]. split; [reflexivity|]. split; [reflexivity|].
  destruct answer as [createdId|message]; [|exact Hs].
  eexists. split; [exact Hs|].
  destruct (truthyId (requestId t)); repeat split.
Qed.

Lemma saveRequest_outcome_witness :
  let st := initial in
  let t := mkRequestTab "tab-0" None newRequestName "GET" "" [emptyParam]
                        [emptyParam] "" None None true in
  exists l1 l2 data,
    openTabs st = l1 ++ t :: l2 /\
    d_url data = Some (url t) /\
    d_body data = None /\
    d_headers data = Some (entriesOfParams (headers t)) /\
    saveRequest st (Some "ping"%string) (rejected "HTTP 500")
    = mkSaveRun [requests_create data] (Some "HTTP 500"%string) st.
Proof.
  intros st t.
  apply (saveRequest_outcome st (Some "ping"%string) (rejected "HTTP 500") t).
  - apply reachable_initial.
  - now left.
  - reflexivity.
Defined.

(** X18. Saving a draft and then opening the created request from the tree
    does not open a second tab: in a reachable state whose active tab is
    unlinked, after [saveRequest] answered with a fresh id, [loadRequest] of
    the request with that id leaves the whole session state as it is. *)
Theorem save_then_open_same_tab :
  forall (st : State) (nameOverride : option string) (req : Request) (t : RequestTab),
    reachable st -> In t (openTabs st) -> id t = activeTabId st ->
    requestId t = None ->
    (forall u, In u (openTabs st) -> requestId u <> Some (r_id req)) ->
    let saved := save_state (saveRequest st nameOverride (resolved (r_id req))) in
    loadRequest saved req = saved /\
    List.length (openTabs saved) = List.length (openTabs st) /\
    List.length (tabsOfRequest saved (r_id req)) = 1%nat.
Proof.
  intros st nameOverride req t Hr Ht Hid Hdraft Hfresh saved.
  pose proof (reachable_Inv st Hr) as [Hids _].
  destruct (in_split _ _ Ht) as (l1 & l2 & Htabs).
  pose proof (saveRequest_of st nameOverride (resolved (r_id req)) t l1 l2
                             Hids Htabs Hid) as Hs.
  cbv zeta in Hs. rewrite Hdraft in Hs. cbn [truthyId] in Hs.
  unfold saved. rewrite Hs. cbn [save_state].
  assert (Hmiss : forall l, (forall u, In u l -> In u (openTabs st)) ->
                            filter (linkedTo (r_id req)) l = []
                            /\ find (linkedTo (r_id req)) l = None).
  { induction l as [|u l IH]; simpl; intros Hsub; [split; reflexivity|].
    assert (Hu : linkedTo (r_id req) u = false).
    { destruct (linkedTo (r_id req) u) eqn:Hl; [|reflexivity].
      apply linkedTo_spec in Hl. exfalso.
      exact (Hfresh u (Hsub u (or_introl eq_refl)) Hl). }
    rewrite Hu. apply IH. intros v Hv. apply Hsub. now right. }
  assert (H1 : forall u, In u l1 -> In u (openTabs st))
    by (intros u Hu; rewrite Htabs; apply in_or_app; now left).
  assert (H2 : forall u, In u l2 -> In u (openTabs st))
    by (intros u Hu; rewrite Htabs; apply in_or_app; right; now right).
  split; [|split].
  - unfold loadRequest, existing. cbn [openTabs].
    rewrite find_app_miss by (apply Hmiss; assumption).
    cbn [find]. unfold linkedTo at 1. cbn [requestId]. rewrite Z.eqb_refl.
    cbn [id tabCounter]. now rewrite Hid.
  - cbn [openTabs]. rewrite Htabs, !length_app. reflexivity.
  - unfold tabsOfRequest. cbn [openTabs]. rewrite filter_app.
    cbn [filter]. unfold linkedTo at 2. cbn [requestId]. rewrite Z.eqb_refl.
    rewrite (proj1 (Hmiss l1 H1)), (proj1 (Hmiss l2 H2)). reflexivity.
Qed.

Lemma save_then_open_same_tab_witness :
  let saved := save_state (saveRequest initial None (resolved 20)) in
  loadRequest saved (Samples.req 20) = saved /\
  List.length (openTabs saved) = List.length (openTabs initial) /\
  List.length (tabsOfRequest saved 20) = 1%nat.
Proof.
  intros saved.
  apply (save_then_open_same_tab
           initial None (Samples.req 20)
           (mkRequestTab "tab-0" None newRequestName "GET" "" [emptyParam]
                         [emptyParam] "" None None true)).
  - apply reachable_initial.
  - now left.
  - reflexivity.
  - reflexivity.
  - intros u [<-|[]]. discriminate.
Defined.

Lemma entriesOfParams_paramsOfEntries (o : list (string * string)) :
  entriesOfParams (paramsOfEntries o)
  = filter (fun kv => truthyString (fst kv)) o.
Proof.
  unfold entriesOfParams, paramsOfEntries. rewrite filter_app, map_app.
  simpl. rewrite app_nil_r.
  induction o as [|[k v] o IH]; simpl; [reflexivity|].
  rewrite andb_true_r. destruct (truthyString k); simpl; now rewrite IH.
Qed.

(** X19. Loading the entries of a request into the table and reading the
    table back for a save gives the entries whose key is not empty, in
    their order; the blank row the editor appends is never sent. *)
Theorem params_round_trip :
  forall o : list (string * string),
    entriesOfParams (paramsOfEntries o)
    = filter (fun kv => truthyString (fst kv)) o /\
    ((forall kv, In kv o -> fst kv <> ""%string) ->
     entriesOfParams (paramsOfEntries o) = o).
Proof.
  intros o.
  pose proof (entriesOfParams_paramsOfEntries o) as H.
  split; [exact H|]. intros Hkeys. rewrite H. apply filter_keep_all.
  intros kv Hin. unfold truthyString. apply negb_true_iff, String.eqb_neq. auto.
Qed.

Lemma params_round_trip_witness :
  entriesOfParams (paramsOfEntries [("Accept", "*/*"); ("X-Id", "7")]%string)
  = [("Accept", "*/*"); ("X-Id", "7")]%string.
Proof.
  apply (proj2 (params_round_trip [("Accept", "*/*"); ("X-Id", "7")]%string)).
  intros kv [<-|[<-|[]]]; discriminate.
Defined.

(** X20. Opening a request that has no tab yet and saving it at once sends
    an update of that very request: its name and url as loaded, its method
    (GET when empty), its headers and query parameters without the entries
    that have an empty key, its body unless it is empty, and its folder.
    The reload follows when the server accepts the update; when it refuses,
    nothing follows and the message is shown as the error. *)
Theorem open_then_save_payload :
  forall (st : State) (req : Request) (answer : Answer Z),
    reachable st -> existing st req = None -> r_id req <> 0 ->
    let update :=
      requests_update
        (r_id req)
        (mkRequestData
           (Some (r_name req)) (Some (orString (r_method req) "GET"))
           (Some (r_url req))
           (Some (filter (fun kv => truthyString (fst kv)) (r_headers req)))
           (Some (filter (fun kv => truthyString (fst kv)) (r_query_params req)))
           match r_body req with
           | Some b => if truthyString b then Some b else None
           | None => None
           end
           (orUndefined (r_folder_id req))) in
    let run := saveRequest (loadRequest st req) None answer in
    save_calls run
    = match answer with
      | resolved _ => [update; loadData]
      | rejected _ => [update]
      end /\
    save_error run
    = match answer with
      | resolved _ => None
      | rejected message => Some message
      end.
Proof.
  intros st req answer Hr He Hid update run.
  assert (Hr1 : reachable (loadRequest st req))
    by (apply reachable_step with st; [assumption|constructor]).
  pose proof (reachable_Inv _ Hr1) as [Hids _].
  revert Hids. unfold run, loadRequest. rewrite He.
  cbn [makeTabId openTabs tabCounter].
  intros Hids.
  match goal with
  | |- context [saveRequest (mkState (_ ++ [?t]) _ _) _ _] => set (tab := t) in *
  end.
  pose proof (saveRequest_of
                (mkState (openTabs st ++ [tab]) (id tab) (S (tabCounter st)))
                None answer tab (openTabs st) [] Hids eq_refl eq_refl) as Hs.
  cbv zeta in Hs.
  match goal with
  | |- context [saveRequest ?s0 _ _] =>
      change s0 with (mkState (openTabs st ++ [tab]) (id tab) (S (tabCounter st)))
  end.
  rewrite Hs. clear Hs.
  assert (Htruthy : truthyId (requestId tab) = true)
    by (simpl; now apply negb_true_iff, Z.eqb_neq).
  rewrite Htruthy.
  assert (Hupdate :
            requests_update
              (r_id req)
              (mkRequestData (Some (name tab)) (Some (orString (method tab) "GET"))
                             (Some (url tab))
                             (Some (entriesOfParams (headers tab)))
                             (Some (entriesOfParams (queryParams tab)))
                             (if truthyString (body tab) then Some (body tab) else None)
                             (folder_id tab))
            = update).
  { unfold update. cbn [tab name method url headers queryParams body folder_id].
    rewrite !entriesOfParams_paramsOfEntries.
    destruct (r_body req) as [b|]; reflexivity. }
  cbn [requestId tab] in *. 
  destruct answer as [createdId|message]; cbn [save_calls save_error];
    rewrite Hupdate; split; reflexivity.
Qed.

Lemma open_then_save_payload_witness :
  let update :=
    requests_update
      20 (mkRequestData (Some "r"%string) (Some "GET"%string)
                        (Some "http://localhost/"%string) (Some []) (Some [])
                        None None) in
  let run := saveRequest (loadRequest initial (Samples.req 20)) None
                         (rejected "HTTP 404") in
  save_calls run = [update] /\ save_error run = Some "HTTP 404"%string.
Proof.
  apply (open_then_save_payload initial (Samples.req 20) (rejected "HTTP 404")).
  - apply reachable_initial.
  - reflexivity.
  - simpl. lia.
Defined.

Lemma onActive_absent (a : string) (g : RequestTab -> RequestTab)
      (l : list RequestTab) :
  ~ In a (map id l) -> onActive a g l = l.
Proof.
  intros Hn. unfold onActive. rewrite <- (map_id l) at 2. apply map_ext_in.
  intros t Ht. destruct (String.eqb_spec (id t) a) as [Heq|]; [|reflexivity].
  exfalso. apply Hn. rewrite <- Heq. now apply in_map.
Qed.

(** X10. The rest of [saveRequest] works with what its render captured.
    When the answer of a create arrives, whatever happened to the session
    in the meantime, the tab whose id is the captured active id (tab ids
    being unique) is linked to the created request and takes the captured
    name, method, url, headers, query parameters, body and folder, so that
    edits made to it while the call was pending are overwritten; it keeps
    its response and has [dirty = false].  Every other tab, the active id
    and the counter are left as they are.  If that tab was closed in the
    meantime, the session is left as it is. *)
Theorem saveResume_captured :
  forall (a : string) (cr : CurrentRequest) (nameOverride : option string)
         (createdId : Z) (st : State),
    truthyId (cr_id cr) = false ->
    NoDup (map id (openTabs st)) ->
    (forall (t : RequestTab) (l1 l2 : list RequestTab),
        openTabs st = l1 ++ t :: l2 -> id t = a ->
        saveResume a cr nameOverride (resolved createdId) st
        = mkSaveRun
            [loadData] None
            (mkState
               (l1 ++
                mkRequestTab (id t) (Some createdId) (saveName cr nameOverride)
                             (cr_method cr) (cr_url cr) (cr_headers cr)
                             (cr_queryParams cr) (cr_body cr) (cr_folder_id cr)
                             (response t) false
                :: l2)
               (activeTabId st) (tabCounter st))) /\
    (~ In a (map id (openTabs st)) ->
     saveResume a cr nameOverride (resolved createdId) st
     = mkSaveRun [loadData] None st).
Proof.
  intros a cr nameOverride createdId st Hdraft Hnd. split.
  - intros t l1 l2 Htabs <-.
    assert (Hnd' : NoDup (map id (l1 ++ t :: l2))) by now rewrite <- Htabs.
    unfold saveResume. rewrite Hdraft. f_equal.
    unfold withTabs. cbn [activeTabId tabCounter setCurrentRequestFrom withTabs].
    f_equal. rewrite setCurrentRequestFrom_tabs.
    cbn [cr_id cr_name cr_method cr_url cr_headers cr_queryParams cr_body cr_folder_id].
    rewrite Htabs, onActive_split by assumption.
    match goal with
    | |- map (fun u => if _ then ?g else u) ?l = _ =>
        change (map (fun u => if (id u =? id t)%string then g else u) l)
          with (onActive (id t) (fun u => g) l)
    end.
    rewrite (onActive_split _ l1 l2
               (mkRequestTab (id t) (Some createdId) (saveName cr nameOverride)
                             (cr_method cr) (cr_url cr) (cr_headers cr)
                             (cr_queryParams cr) (cr_body cr) (cr_folder_id cr)
                             (response t) true)).
    + cbn [id requestId name method url headers queryParams body folder_id response].
      f_equal. f_equal.
      destruct nameOverride as [n|]; [destruct (truthyString n)|]; reflexivity.
    + rewrite map_app in *. exact Hnd'.
  - intros Hgone. unfold saveResume. rewrite Hdraft. f_equal.
    assert (Hmap : forall g : RequestTab -> RequestTab,
               map (fun u => if (id u =? a)%string then g u else u) (openTabs st)
               = openTabs st)
      by (intros g; exact (onActive_absent a g (openTabs st) Hgone)).
    unfold setCurrentRequestFrom, withTabs. cbn [openTabs activeTabId tabCounter].
    rewrite !Hmap. now destruct st.
Qed.

Lemma saveResume_captured_witness :
  let edited := editField initial (edit_url "http://x") in
  map url (openTabs edited) = ["http://x"]%string /\
  saveResume (activeTabId initial) (currentRequest initial) None (resolved 7) edited
  = mkSaveRun
      [loadData] None
      (mkState [mkRequestTab "tab-0" (Some 7) newRequestName "GET" "" [emptyParam]
                             [emptyParam] "" None None false]
               "tab-0" 1).
Proof.
  intros edited. split; [reflexivity|].
  refine (proj1 (saveResume_captured (activeTabId initial) (currentRequest initial)
                                     None 7 edited eq_refl _)
                (mkRequestTab "tab-0" None newRequestName "GET" "http://x"
                              [emptyParam] [emptyParam] "" None None true)
                [] [] eq_refl eq_refl).
  vm_compute. repeat constructor. simpl. tauto.
Defined.

(** X21. Drafts are never de-duplicated: two [newRequest] calls in a row
    append two tabs with different ids, both unlinked and dirty, and the
    second becomes the active one. *)
Theorem newRequest_no_dedup :
  forall (st : State) (f g : option Z),
    exists t1 t2,
      openTabs (newRequest (newRequest st f) g) = openTabs st ++ [t1; t2] /\
      id t1 <> id t2 /\
      requestId t1 = None /\ requestId t2 = None /\
      dirty t1 = true /\ dirty t2 = true /\
      folder_id t1 = f /\ folder_id t2 = g /\
      activeTabId (newRequest (newRequest st f) g) = id t2.
Proof.
  intros st f g. unfold newRequest. simpl. eexists. eexists.
  split; [now rewrite <- app_assoc|]. simpl.
  split; [|repeat split].
  intros Heq. apply tabIdOf_inj in Heq. lia.
Qed.

Lemma lastRow_snoc (l : list ParamItem) (p : ParamItem) :
  lastRow (l ++ [p]) = Some p.
Proof.
  unfold lastRow. destruct (l ++ [p]) as [|q rest] eqn:Hl;
    [now destruct l|].
  rewrite <- Hl, length_app. simpl.
  rewrite nth_error_app2 by lia.
  replace (List.length l + 1 - 1 - List.length l)%nat with 0%nat by lia.
  reflexivity.
Qed.

Lemma lastRow_split (ps : list ParamItem) (p : ParamItem) :
  lastRow ps = Some p -> exists l, ps = l ++ [p].
Proof.
  intros H. destruct ps as [|q rest] using rev_ind; [discriminate|].
  rewrite lastRow_snoc in H. injection H as ->. eauto.
Qed.

Lemma EndsBlank_snoc (l : list ParamItem) (p : ParamItem) :
  key p = ""%string -> EndsBlank (l ++ [p]).
Proof. intros H. exists p. split; [apply lastRow_snoc|assumption]. Qed.

Lemma replace_snoc_last {A : Type} (l : list A) (p x : A) :
  firstn (List.length l) (l ++ [p]) ++ x :: skipn (S (List.length l)) (l ++ [p])
  = l ++ [x].
Proof.
  induction l as [|y l IH]; [reflexivity|].
  simpl. f_equal. exact IH.
Qed.

Lemma replace_snoc_inner {A : Type} (l : list A) (p x : A) (i : nat) :
  (i < List.length l)%nat ->
  firstn i (l ++ [p]) ++ x :: skipn (S i) (l ++ [p])
  = (firstn i l ++ x :: skipn (S i) l) ++ [p].
Proof.
  revert i. induction l as [|y l IH]; intros i Hi; [simpl in Hi; lia|].
  destruct i as [|i]; [reflexivity|].
  simpl in Hi. simpl. f_equal. apply IH. lia.
Qed.

Lemma updateRow_snoc (l : list ParamItem) (p : ParamItem) (i : nat)
      (f : ParamItem -> ParamItem) (ps' : list ParamItem) :
  updateRow (l ++ [p]) i f = Some ps' ->
  ((i < List.length l)%nat /\
   exists l', List.length l' = List.length l /\ ps' = l' ++ [p]) \/
  (i = List.length l /\ ps' = l ++ [f p]).
Proof.
  unfold updateRow.
  destruct (nth_error (l ++ [p]) i) as [q|] eqn:Hq; [|discriminate].
  intros H.
  assert (Hps : ps' = firstn i (l ++ [p]) ++ f q :: skipn (S i) (l ++ [p]))
    by congruence.
  clear H.
  assert (Hi : (i < List.length (l ++ [p]))%nat)
    by (apply nth_error_Some; congruence).
  rewrite length_app in Hi. simpl in Hi.
  destruct (Nat.eq_dec i (List.length l)) as [Heq|Hne].
  - right. split; [assumption|]. subst i.
    rewrite nth_error_app2, Nat.sub_diag in Hq by lia.
    assert (q = p) by (simpl in Hq; congruence). subst q.
    rewrite Hps. apply replace_snoc_last.
  - left. split; [lia|].
    exists (firstn i l ++ f q :: skipn (S i) l). split.
    + rewrite length_app. cbn [List.length].
      rewrite firstn_length_le, length_skipn by lia. lia.
    + rewrite Hps. apply replace_snoc_inner. lia.
Qed.

Lemma updateRow_keeps_blank (ps : list ParamItem) (i : nat)
      (f : ParamItem -> ParamItem) (ps' : list ParamItem) :
  (forall p, key (f p) = key p) ->
  EndsBlank ps -> updateRow ps i f = Some ps' ->
  EndsBlank ps' /\ List.length ps' = List.length ps.
Proof.
  intros Hf (p & Hlast & Hkey) Hu.
  destruct (lastRow_split ps p Hlast) as [l ->].
  destruct (updateRow_snoc l p i f ps' Hu) as [(_ & l' & Hlen & ->)|(_ & ->)].
  - split; [now apply EndsBlank_snoc|]. rewrite !length_app. simpl. lia.
  - split; [apply EndsBlank_snoc; now rewrite Hf|]. rewrite !length_app. reflexivity.
Qed.

(** X22. The parameter and header tables always offer a blank last row:
    the table of a loaded request ends with one, removing a row always
    leaves a table that ends with one, and on a table that ends with one
    every row edit (check box, key, value, description) gives a table that
    ends with one; typing a key into the last row adds a new blank row below
    it, and the other edits keep the number of rows. *)
Theorem param_rows_end_blank :
  (forall o, EndsBlank (paramsOfEntries o)) /\
  (forall ps i, EndsBlank (removeParam ps i)) /\
  (forall ps i ps',
      EndsBlank ps ->
      (forall b, setParamEnabled ps i b = Some ps' ->
                 EndsBlank ps' /\ List.length ps' = List.length ps) /\
      (forall v, setParamValue ps i v = Some ps' ->
                 EndsBlank ps' /\ List.length ps' = List.length ps) /\
      (forall v, setParamDescription ps i v = Some ps' ->
                 EndsBlank ps' /\ List.length ps' = List.length ps) /\
      (forall v, setParamKey ps i v = Some ps' ->
                 EndsBlank ps' /\
                 List.length ps'
                 = if Nat.eqb i (List.length ps - 1) && truthyString v
                   then S (List.length ps) else List.length ps)).
Proof.
  split; [|split].
  - intros o. unfold paramsOfEntries. now apply EndsBlank_snoc.
  - intros ps i. unfold removeParam.
    destruct (lastRow (dropIndex ps i)) as [p|] eqn:Hl.
    + destruct (truthyString (key p)) eqn:Hk; [now apply EndsBlank_snoc|].
      exists p. split; [assumption|].
      unfold truthyString in Hk. apply negb_false_iff in Hk.
      now apply String.eqb_eq in Hk.
    + now apply EndsBlank_snoc.
  - intros ps i ps' HB.
    split; [|split; [|split]];
      try (intros v Hu; eapply updateRow_keeps_blank; [|exact HB|exact Hu];
           reflexivity).
    intros v Hu. unfold setParamKey in Hu.
    destruct (updateRow ps i _) as [arr|] eqn:Hup; [|discriminate].
    injection Hu as <-.
    destruct HB as (p & Hlast & Hkey).
    destruct (lastRow_split ps p Hlast) as [l ->].
    destruct (updateRow_snoc l p i _ arr Hup) as [(Hi & l' & Hlen & ->)|(-> & ->)].
    + rewrite !length_app. simpl.
      replace (Nat.eqb i (List.length l' + 1 - 1)) with false
        by (symmetry; apply Nat.eqb_neq; lia).
      replace (Nat.eqb i (List.length l + 1 - 1)) with false
        by (symmetry; apply Nat.eqb_neq; lia).
      simpl. split; [now apply EndsBlank_snoc|]. rewrite length_app. simpl. lia.
    + rewrite !length_app. simpl.
      replace (List.length l + 1 - 1)%nat with (List.length l) by lia.
      rewrite Nat.eqb_refl. simpl.
      destruct (truthyString v) eqn:Hv.
      * split; [now apply EndsBlank_snoc|]. rewrite !length_app. simpl. lia.
      * split; [|rewrite length_app; simpl; lia].
        apply EndsBlank_snoc. simpl.
        unfold truthyString in Hv. apply negb_false_iff in Hv.
        now apply String.eqb_eq in Hv.
Qed.

Lemma param_rows_end_blank_witness :
  let ps := [emptyParam] in
  let ps' := [mkParamItem "Accept" "" "" true; emptyParam] in
  EndsBlank ps' /\
  List.length ps' = (if Nat.eqb 0 (List.length ps - 1) && truthyString "Accept"
                     then S (List.length ps) else List.length ps).
Proof.
  intros ps ps'.
  apply (proj2 (proj2 (proj2
           (proj2 (proj2 param_rows_end_blank) ps 0%nat ps'
                  (EndsBlank_snoc [] emptyParam eq_refl)))) "Accept"%string).
  reflexivity.
Defined.

End SessionMore.

(** ** The remaining view state *)

Module UiFacts.

Import Ui.

Lemma has_filter_other (s : list Z) (i j : Z) :
  has (filter (fun x => negb (x =? i)) s) j
  = if j =? i then false else has s j.
Proof.
  unfold has. induction s as [|x s IH]; simpl; [now destruct (j =? i)|].
  destruct (x =? i) eqn:Hx; simpl; rewrite IH.
  - apply Z.eqb_eq in Hx. subst x.
    destruct (j =? i); reflexivity.
  - destruct (j =? i) eqn:Hj; [|reflexivity].
    apply Z.eqb_eq in Hj. subst j. now rewrite Z.eqb_sym, Hx.
Qed.

Lemma has_toggle (s : list Z) (i j : Z) :
  has (toggleFolder s i) j = if j =? i then negb (has s i) else has s j.
Proof.
  unfold toggleFolder. destruct (has s i) eqn:Hi.
  - apply has_filter_other.
  - unfold has in *. rewrite existsb_app. simpl. rewrite orb_false_r.
    destruct (j =? i) eqn:Hj; [|apply orb_false_r].
    apply Z.eqb_eq in Hj. subst j. now rewrite Hi.
Qed.

(** X23. [toggleFolder(id)] flips the expanded state of that folder and of
    no other; toggling the same folder twice restores every folder's
    state, and a set without duplicates stays one. *)
Theorem toggleFolder_flips :
  forall (expanded : list Z) (i : Z),
    (forall j, has (toggleFolder expanded i) j
               = if j =? i then negb (has expanded i) else has expanded j) /\
    (forall j, has (toggleFolder (toggleFolder expanded i) i) j = has expanded j) /\
    (NoDup expanded -> NoDup (toggleFolder expanded i)).
Proof.
  intros expanded i. split; [|split].
  - intros j. apply has_toggle.
  - intros j. rewrite !has_toggle, Z.eqb_refl.
    destruct (j =? i) eqn:Hj; [|reflexivity].
    apply Z.eqb_eq in Hj. subst j. apply negb_involutive.
  - intros Hnd. unfold toggleFolder. destruct (has expanded i) eqn:Hi.
    + now apply NoDup_filter.
    + apply NoDup_app; [assumption|repeat constructor; auto|].
      intros x Hx [<-|[]]. unfold has in Hi.
      assert (Ht : existsb (Z.eqb i) expanded = true)
        by (apply existsb_exists; exists i; split; [assumption|apply Z.eqb_refl]).
      congruence.
Qed.

Lemma toggleFolder_flips_witness :
  NoDup (toggleFolder [1; 2; 3] 2).
Proof.
  apply (proj2 (proj2 (toggleFolder_flips [1; 2; 3] 2))).
  repeat constructor; simpl; intuition discriminate.
Defined.

(** X24. [formatTimeAgo] shows "just now" for less than a minute (a time in
    the future included), whole minutes from 1 to 59 below one hour, whole
    hours from 1 to 23 below one day, and whole days, at least 1, from one
    day on. *)
Theorem formatTimeAgo_ranges :
  forall diffMs : Z,
    (diffMs < 60000 -> formatTimeAgo diffMs = "刚刚"%string) /\
    (60000 <= diffMs < 3600000 ->
     formatTimeAgo diffMs = (showZ (diffMs / 60000) ++ "分钟前")%string /\
     1 <= diffMs / 60000 <= 59) /\
    (3600000 <= diffMs < 86400000 ->
     formatTimeAgo diffMs = (showZ (diffMs / 3600000) ++ "小时前")%string /\
     1 <= diffMs / 3600000 <= 23) /\
    (86400000 <= diffMs ->
     formatTimeAgo diffMs = (showZ (diffMs / 86400000) ++ "天前")%string /\
     1 <= diffMs / 86400000).
Proof.
  intros d. unfold formatTimeAgo.
  assert (Hm := Z.div_mod d 60000 ltac:(lia)).
  assert (Hmr := Z.mod_pos_bound d 60000 ltac:(lia)).
  assert (Hh := Z.div_mod d 3600000 ltac:(lia)).
  assert (Hhr := Z.mod_pos_bound d 3600000 ltac:(lia)).
  assert (Hd := Z.div_mod d 86400000 ltac:(lia)).
  assert (Hdr := Z.mod_pos_bound d 86400000 ltac:(lia)).
  split; [|split; [|split]]; intros Hrange; try split;
    repeat match goal with
           | |- context [if ?a <? ?b then _ else _] =>
               destruct (Z.ltb_spec a b)
           end;
    try reflexivity; lia.
Qed.

Lemma formatTimeAgo_ranges_witness :
  formatTimeAgo 7200000 = (showZ (7200000 / 3600000) ++ "小时前")%string /\
  1 <= 7200000 / 3600000 <= 23.
Proof.
  apply (proj1 (proj2 (proj2 (formatTimeAgo_ranges 7200000)))).
  lia.
Defined.

Lemma Qle_bool_false (a b : Q) : Qle_bool a b = false -> (b < a)%Q.
Proof.
  intros H. apply Qnot_le_lt. intros Hle. apply Qle_bool_iff in Hle. congruence.
Qed.

Lemma mathMax_spec (a b : Q) :
  (a <= mathMax a b /\ b <= mathMax a b /\ (mathMax a b = a \/ mathMax a b = b))%Q.
Proof.
  unfold mathMax. destruct (Qle_bool a b) eqn:H.
  - apply Qle_bool_iff in H. repeat split; auto; lra.
  - apply Qle_bool_false in H. repeat split; auto; lra.
Qed.

Lemma mathMin_spec (a b : Q) :
  (mathMin a b <= a /\ mathMin a b <= b /\ (mathMin a b = a \/ mathMin a b = b))%Q.
Proof.
  unfold mathMin. destruct (Qle_bool a b) eqn:H.
  - apply Qle_bool_iff in H. repeat split; auto; lra.
  - apply Qle_bool_false in H. repeat split; auto; lra.
Qed.

(** X25. While the sidebar handle is dragged its width stays within
    [180, 500] and follows the pointer inside that range; while the
    response handle is dragged the panel height is at least 100, at most
    the container height minus 100 when the container is at least 200
    high, and exactly 100 when it is lower; a size whose handle is not
    dragged does not change. *)
Theorem handleMouseMove_bounds :
  forall (st : Resize) (clientX clientY : Q) (container : option (Q * Q)),
    let st' := handleMouseMove st clientX clientY container in
    (isResizing st = true ->
     (180 <= sidebarWidth st' <= 500)%Q /\
     ((180 <= clientX - 48 <= 500)%Q -> (sidebarWidth st' == clientX - 48)%Q)) /\
    (isResizing st = false -> sidebarWidth st' = sidebarWidth st) /\
    (forall bottom h,
        isResizingResponse st = true -> container = Some (bottom, h) ->
        (100 <= responsePanelHeight st')%Q /\
        ((200 <= h)%Q -> (responsePanelHeight st' <= h - 100)%Q) /\
        ((h < 200)%Q -> responsePanelHeight st' = 100%Q)) /\
    (isResizingResponse st = false \/ container = None ->
     responsePanelHeight st' = responsePanelHeight st).
Proof.
  intros st clientX clientY container st'. unfold st', handleMouseMove.
  pose proof (mathMin_spec 500 (clientX - 48)) as (Hn1 & Hn2 & Hn3).
  pose proof (mathMax_spec 180 (mathMin 500 (clientX - 48))) as (Hx1 & Hx2 & Hx3).
  split; [|split; [|split]].
  - intros Hr. rewrite Hr.
    assert (Hw : forall r, sidebarWidth
                   match isResizingResponse r, container with
                   | true, Some (bottom, containerHeight) =>
                       mkResize (isResizing r) (isResizingResponse r) (sidebarWidth r)
                                (mathMax 100 (mathMin (containerHeight - 100)
                                                      (bottom - clientY)))
                   | _, _ => r
                   end = sidebarWidth r)
      by (intros r; destruct (isResizingResponse r), container as [[? ?]|];
          reflexivity).
    rewrite Hw. cbn [sidebarWidth].
    set (m := mathMin 500 (clientX - 48)) in *.
    set (w := mathMax 180 m) in *.
    split.
    + destruct Hx3 as [E|E]; rewrite E in *; split; lra.
    + intros Hin. destruct Hx3 as [E|E]; rewrite E in *;
        destruct Hn3 as [E'|E']; rewrite E' in *; lra.
  - intros Hr. rewrite Hr.
    destruct (isResizingResponse st), container as [[? ?]|]; reflexivity.
  - intros bottom h Hr ->.
    assert (Hflag : isResizingResponse
                      (if isResizing st
                       then mkResize (isResizing st) (isResizingResponse st)
                                     (mathMax 180 (mathMin 500 (clientX - 48)))
                                     (responsePanelHeight st)
                       else st) = true)
      by (destruct (isResizing st); assumption).
    rewrite Hflag. cbn [responsePanelHeight].
    pose proof (mathMin_spec (h - 100) (bottom - clientY)) as (Hm1 & Hm2 & Hm3).
    pose proof (mathMax_spec 100 (mathMin (h - 100) (bottom - clientY)))
      as (Hy1 & Hy2 & Hy3).
    set (m := mathMin (h - 100) (bottom - clientY)) in *.
    set (y := mathMax 100 m) in *.
    split; [assumption|]. split.
    + intros Hh. destruct Hy3 as [E|E]; rewrite E in *; lra.
    + intros Hh. unfold y, mathMax.
      destruct (Qle_bool 100 m) eqn:Hle; [|reflexivity].
      apply Qle_bool_iff in Hle. lra.
  - intros Hoff. destruct st as [r rr w hgt]. cbn [isResizing isResizingResponse] in *.
    destruct r, rr, container as [[? ?]|]; try reflexivity;
      destruct Hoff; discriminate.
Qed.

Lemma handleMouseMove_bounds_witness :
  let st' := handleMouseMove (mkResize false true 280 300) 0 10 (Some (160, 150)%Q) in
  (100 <= responsePanelHeight st')%Q /\
  ((200 <= 150)%Q -> (responsePanelHeight st' <= 150 - 100)%Q) /\
  ((150 < 200)%Q -> responsePanelHeight st' = 100%Q).
Proof.
  intros st'.
  apply (proj1 (proj2 (proj2 (handleMouseMove_bounds
                                (mkResize false true 280 300) 0 10
                                (Some (160, 150)%Q)))) 160%Q 150%Q); reflexivity.
Defined.

End UiFacts.
